(* Verification development for health-peek: the client-side validation,
   request and history code of the web front-end and the mobile app, and the
   parts of the chat analysis engine that the front-ends consume (the engine
   itself is modelled from its specification). *)

From Stdlib Require Import List ZArith Bool Lia QArith Qpower Lqa String Ascii.
Import ListNotations.
Open Scope Z_scope.

(* ------------------------------------------------------------------------- *)
(** * JavaScript strings *)

(** A JavaScript string is a sequence of UTF-16 code units; [length] is the
    number of code units, as [String.prototype.length]. *)
Definition jsstr := list Z.

(** ASCII literals written as Rocq strings. *)
Definition js (s : string) : jsstr :=
  map (fun a => Z.of_nat (nat_of_ascii a)) (list_ascii_of_string s).

Module JsString.

(** The code units removed by [String.prototype.trim]: WhiteSpace
    (TAB, VT, FF, ZWNBSP and the Zs category) and LineTerminator. *)
Definition is_js_ws (c : Z) : bool :=
  (c =? 9) || (c =? 11) || (c =? 12) || (c =? 32) || (c =? 160)
  || (c =? 5760) || ((8192 <=? c) && (c <=? 8202)) || (c =? 8239)
  || (c =? 8287) || (c =? 12288) || (c =? 65279)
  || (c =? 10) || (c =? 13) || (c =? 8232) || (c =? 8233).

Fixpoint trim_start (s : jsstr) : jsstr :=
  match s with
  | [] => []
  | c :: r => if is_js_ws c then trim_start r else s
  end.

Definition trim_end (s : jsstr) : jsstr := rev (trim_start (rev s)).

(** [s.trim()] *)
Definition trim (s : jsstr) : jsstr := trim_end (trim_start s).

(** JavaScript truthiness of a string: only the empty string is falsy. *)
Definition truthy_str (s : jsstr) : bool :=
  match s with [] => false | _ => true end.

(** [s.startsWith(p)] *)
Fixpoint starts_with (s p : jsstr) : bool :=
  match p, s with
  | [], _ => true
  | _ :: _, [] => false
  | a :: p', b :: s' => (a =? b) && starts_with s' p'
  end.

(** [s.includes(p)] *)
Fixpoint includes (s p : jsstr) : bool :=
  starts_with s p || match s with [] => false | _ :: s' => includes s' p end.

(** Decimal rendering of an integer, as [Number.prototype.toString()]. *)
Fixpoint digits (fuel : nat) (n : Z) (acc : jsstr) : jsstr :=
  match fuel with
  | O => acc
  | S f =>
      let acc' := (48 + n mod 10) :: acc in
      if n / 10 =? 0 then acc' else digits f (n / 10) acc'
  end.

Definition number_to_string (n : Z) : jsstr :=
  let fuel := S (S (Z.to_nat (Z.log2 (Z.abs n)))) in
  if n <? 0 then 45 :: digits fuel (- n) [] else digits fuel n [].

End JsString.

Import JsString.

(* ------------------------------------------------------------------------- *)
(** * Single-message validation (web helpers, web and mobile analyze forms) *)

Module MessageForm.

(** helpers.js [validateMessage]:
    [message.trim().length > 0 && message.length <= 5000] *)
Definition validateMessage (message : jsstr) : bool :=
  (0 <? List.length (trim message))%nat && (List.length message <=? 5000)%nat.

(** Web MessageAnalyzer [handleAnalyze]: [if (!message.trim()) return;]
    then the request is issued (the submit button is disabled on the same
    condition). *)
Definition web_submits (message : jsstr) : bool :=
  truthy_str (trim message).

(** Mobile AnalyzeScreen [handleAnalyze]: rejects an empty trimmed message
    and a trimmed message longer than 5000, else issues the request. *)
Definition mobile_submits (message : jsstr) : bool :=
  let trimmed := trim message in
  if negb (truthy_str trimmed) then false
  else if (5000 <? List.length trimmed)%nat then false
  else true.

End MessageForm.

(* ------------------------------------------------------------------------- *)
(** * Chat import forms *)

Module ChatImportForm.

(** What an import handler does: alert and return, or call
    [analysisService.importChat] with the given arguments. *)
Inductive import_outcome :=
| ImportRejected (alert : jsstr)
| ImportIssued (content : jsstr) (format_type : option jsstr)
    (current_user_name : option jsstr).

Definition is_rejected (o : import_outcome) : bool :=
  match o with ImportRejected _ => true | ImportIssued _ _ _ => false end.

(** [s || undefined] / [s || null] on a string. *)
Definition str_or_none (s : jsstr) : option jsstr :=
  if truthy_str s then Some s else None.

(** Mobile ChatImportScreen [handleImport]. *)
Definition mobile_handleImport (content formatType userName : jsstr)
  : import_outcome :=
  if negb (truthy_str (trim content)) || (List.length (trim content) <? 10)%nat
  then ImportRejected (js "Please provide chat content (min 10 characters)")
  else ImportIssued (trim content) (Some formatType)
         (str_or_none (trim userName)).

(** Web ChatImport (AnalysisHistory.js) [handleAnalyze]. *)
Definition web_handleAnalyze (chatContent formatType userName : jsstr)
  : import_outcome :=
  if negb (truthy_str (trim chatContent))
  then ImportRejected (js "Please provide chat content")
  else ImportIssued chatContent (str_or_none formatType)
         (str_or_none (trim userName)).

End ChatImportForm.

(* ------------------------------------------------------------------------- *)
(** * API clients: error messages of failed requests *)

Module Api.

(** JavaScript values, as produced by [JSON.parse]; numbers are integers. *)
Inductive jsval :=
| JUndef
| JNull
| JBool (b : bool)
| JNum (n : Z)
| JStr (s : jsstr)
| JArr (l : list jsval)
| JObj (fields : list (jsstr * jsval)).

Definition jsstr_eqb (a b : jsstr) : bool :=
  if list_eq_dec Z.eq_dec a b then true else false.

Definition truthy (v : jsval) : bool :=
  match v with
  | JUndef | JNull => false
  | JBool b => b
  | JNum n => negb (n =? 0)
  | JStr s => truthy_str s
  | JArr _ | JObj _ => true
  end.

(** [a || b] *)
Definition js_or (a b : jsval) : jsval := if truthy a then a else b.

(** Property read on a parsed object; [JSON.parse] keeps the last of
    duplicate keys. *)
Definition get_prop (fields : list (jsstr * jsval)) (k : jsstr) : jsval :=
  fold_left (fun acc kv => if jsstr_eqb (fst kv) k then snd kv else acc)
    fields JUndef.

(** [v?.k] *)
Definition opt_get (v : jsval) (k : jsstr) : jsval :=
  match v with JObj fs => get_prop fs k | _ => JUndef end.

Fixpoint join_comma (l : list jsstr) : jsstr :=
  match l with
  | [] => []
  | [x] => x
  | x :: r => x ++ [44] ++ join_comma r
  end.

(** [String(v)], as used by template literals and [new Error(v)]. *)
Fixpoint to_string (v : jsval) : jsstr :=
  match v with
  | JUndef => js "undefined"
  | JNull => js "null"
  | JBool true => js "true"
  | JBool false => js "false"
  | JNum n => number_to_string n
  | JStr s => s
  | JArr l =>
      join_comma (map (fun e => match e with
                                | JUndef | JNull => []
                                | _ => to_string e
                                end) l)
  | JObj _ => js "[object Object]"
  end.

(** A received HTTP response; [body_json] is [JSON.parse] of [body_text]
    ([None] when it throws). *)
Record response := {
  status : Z;
  status_text : jsstr;
  content_type : option jsstr;
  body_text : jsstr;
  body_json : option jsval
}.

Definition is_ok (r : response) : bool := (200 <=? status r) && (status r <=? 299).

Inductive outcome :=
| Returned (v : jsval)
| ReturnedRaw
| Thrown (message : jsstr).

(** Message of the [SyntaxError] raised by [response.json()] on a body that
    is not JSON (engine-dependent text). *)
Definition json_syntax_error : jsstr := js "Unexpected token in JSON".

(** Message of the [TypeError] raised by reading a property of [null]. *)
Definition null_property_error : jsstr :=
  js "Cannot read properties of null (reading 'detail')".

Definition http_prefix (r : response) : jsstr :=
  js "HTTP " ++ number_to_string (status r).

(** Web front-end, services/base.js [ApiService.request], from the received
    response on. The boolean is whether the stored session is cleared
    (and the login redirect started), which happens on a 401. *)
Definition web_request (r : response) : bool * outcome :=
  let is_json :=
    match content_type r with
    | Some ct => includes ct (js "application/json")
    | None => false
    end in
  let result :=
    if is_json then
      match body_json r with Some v => inl v | None => inr json_syntax_error end
    else inl (JStr (body_text r)) in
  match result with
  | inr e => (false, Thrown e)
  | inl res =>
      if is_ok r then (false, Returned res)
      else
        let cleared := status r =? 401 in
        let fail em := (cleared, Thrown (http_prefix r ++ js ": " ++ to_string em)) in
        match res with
        | JObj fs => fail (js_or (get_prop fs (js "detail")) (get_prop fs (js "message")))
        | JArr _ => fail (js_or JUndef JUndef)
        | JNull => (cleared, Thrown null_property_error)
        | _ => fail res
        end
  end.

(** The [catch] of the mobile [request]: ['UNAUTHORIZED'] and messages
    starting with ['HTTP'] are rethrown, any other error is wrapped. *)
Definition mobile_catch (message : jsstr) : jsstr :=
  if jsstr_eqb message (js "UNAUTHORIZED") then message
  else if starts_with message (js "HTTP") then message
  else js "Network error: " ++ message.

(** Mobile app, services/api.js [ApiService.request], from the received
    response on. *)
Definition mobile_request (r : response) : outcome :=
  if status r =? 401 then Thrown (mobile_catch (js "UNAUTHORIZED"))
  else
    let ct := match content_type r with Some c => c | None => [] end in
    if includes ct (js "application/pdf") || includes ct (js "application/octet-stream")
    then
      if negb (is_ok r)
      then Thrown (mobile_catch (http_prefix r ++ js ": " ++ status_text r))
      else ReturnedRaw
    else
      let data :=
        if includes ct (js "application/json") then
          match body_json r with Some v => inl v | None => inr json_syntax_error end
        else
          match body_json r with
          | Some v => inl v
          | None => inl (JObj [(js "message", JStr (body_text r))])
          end in
      match data with
      | inr e => Thrown (mobile_catch e)
      | inl d =>
          if negb (is_ok r) then
            let message :=
              js_or (js_or (opt_get d (js "detail")) (opt_get d (js "message")))
                (JStr (http_prefix r)) in
            Thrown (mobile_catch (to_string message))
          else Returned d
      end.

(** The message of a thrown outcome (empty otherwise). *)
Definition thrown_message (o : outcome) : jsstr :=
  match o with Thrown m => m | _ => [] end.

End Api.

(* ------------------------------------------------------------------------- *)
(** * Mobile AnalysisContext: the local analysis history *)

Module AnalysisContext.

(** The fields of an [analyzeMessage] response read by [addAnalysis];
    the server's [analysis_id] is a string, [None] when absent. *)
Record analysis_result := {
  r_analysis_id : option jsstr;
  r_sentiment : Api.jsval;
  r_confidence : Api.jsval;
  r_emotions : Api.jsval;
  r_emoji_analysis : Api.jsval;
  r_timestamp : option jsstr
}.

Record entry := {
  analysis_id : jsstr;
  message : jsstr;
  sentiment : Api.jsval;
  confidence : Api.jsval;
  emotions : Api.jsval;
  emoji_analysis : Api.jsval;
  timestamp : jsstr
}.

(** The clock read by [addAnalysis]: [Date.now()] and
    [new Date().toISOString()]. *)
Record clock := { now_ms : Z; now_iso : jsstr }.

Definition str_or (o : option jsstr) (dflt : jsstr) : jsstr :=
  match o with Some s => if truthy_str s then s else dflt | None => dflt end.

(** [newEntry] of [addAnalysis]. *)
Definition new_entry (clk : clock) (msg : jsstr) (result : analysis_result) : entry :=
  {| analysis_id := str_or (r_analysis_id result) (number_to_string (now_ms clk));
     message := msg;
     sentiment := r_sentiment result;
     confidence := r_confidence result;
     emotions := r_emotions result;
     emoji_analysis := r_emoji_analysis result;
     timestamp := str_or (r_timestamp result) (now_iso clk) |}.

(** The functional update passed to [setAnalysisHistory] by
    [addAnalysis(message, result)]. *)
Definition addAnalysis (clk : clock) (msg : jsstr) (result : analysis_result)
  (prev : list entry) : list entry :=
  let e := new_entry clk msg result in
  if existsb (fun item => Api.jsstr_eqb (analysis_id item) (analysis_id e)) prev
  then prev
  else firstn 100 (e :: prev).

(** A sequence of [addAnalysis] calls from the initial empty history. *)
Definition add_call := (clock * jsstr * analysis_result)%type.

Definition run_adds_from (h : list entry) (calls : list add_call) : list entry :=
  fold_left (fun h c => match c with (clk, m, r) => addAnalysis clk m r h end) calls h.

Definition run_adds (calls : list add_call) : list entry := run_adds_from [] calls.

Record ctx_state := { analysisHistory : list entry; error : option jsstr }.

(** Outcome of [analysisService.deleteAnalysis]: resolved, or rejected with
    an error whose message is given. *)
Definition delete_result := (unit + jsstr)%type.

(** [removeAnalysis(analysisId)]: the new context state and the error
    rethrown to the caller, if any. *)
Definition removeAnalysis (analysisId : jsstr) (server : delete_result)
  (st : ctx_state) : ctx_state * option jsstr :=
  match server with
  | inl _ =>
      ({| analysisHistory :=
            filter (fun a => negb (Api.jsstr_eqb (analysis_id a) analysisId))
              (analysisHistory st);
          error := error st |}, None)
  | inr msg =>
      ({| analysisHistory := analysisHistory st; error := Some msg |}, Some msg)
  end.

End AnalysisContext.

(* ------------------------------------------------------------------------- *)
(** * Binary64 arithmetic

    JavaScript numbers, and the floats the engine stores ratios in, are
    IEEE 754 binary64 values. A double is modelled by its exact rational
    value; each arithmetic operation rounds its exact result to the nearest
    double. *)

Module Binary64.

(** [num / den] rounded to the nearest integer, ties to even ([den > 0]). *)
Definition round_ne (num den : Z) : Z :=
  let n := num / den in
  let r := num mod den in
  if 2 * r <? den then n
  else if den <? 2 * r then n + 1
  else if Z.even n then n else n + 1.

(** [b * 2^e <= a], for an exponent [e] of either sign. *)
Definition scaled_le (a b e : Z) : bool :=
  if 0 <=? e then b * 2 ^ e <=? a else b <=? a * 2 ^ (- e).

(** [floor (log2 (a / b))] for [a, b > 0]. *)
Definition exponent (a b : Z) : Z :=
  let e0 := Z.log2 a - Z.log2 b in
  if scaled_le a b e0 then e0 else e0 - 1.

(** [n * 2^k] as a rational. *)
Definition scaled (n k : Z) : Q :=
  if 0 <=? k then inject_Z (n * 2 ^ k) else n # Z.to_pos (2 ^ (- k)).

(** [a / b] rounded to the nearest multiple of [2^k], ties to even. *)
Definition round_at (a b k : Z) : Q :=
  if 0 <=? k then scaled (round_ne a (b * 2 ^ k)) k
  else scaled (round_ne (a * 2 ^ (- k)) b) k.

(** [a / b] ([a, b > 0]) rounded to binary64: 53 significant bits, and a
    quantum never below [2^-1074] (the subnormal range). *)
Definition round_pos (a b : Z) : Q :=
  round_at a b (Z.max (exponent a b - 52) (-1074)).

(** The binary64 value nearest to [q], ties to even: the result of an
    IEEE 754 operation whose exact result is [q]. Overflow to infinity is
    not represented; the values rounded below (ratios, counts and
    percentages) stay far inside the finite range. *)
Definition round (q : Q) : Q :=
  let a := Qnum q in
  let b := Zpos (Qden q) in
  if a =? 0 then 0%Q
  else if 0 <? a then round_pos a b
  else Qopp (round_pos (- a) b).

(** [x + y], [x * y] and [x / y] on doubles. *)
Definition add (x y : Q) : Q := round (x + y)%Q.
Definition mul (x y : Q) : Q := round (x * y)%Q.
Definition div (x y : Q) : Q := round (x / y)%Q.

End Binary64.

(* ------------------------------------------------------------------------- *)
(** * Dashboard sentiment distribution *)

Module Dashboard.
Local Open Scope Q_scope.

(** [Object.values(stats.sentimentDistribution).reduce((a, b) => a + b, 0)] *)
Definition total (dist : list (jsstr * Q)) : Q :=
  fold_left (fun a kv => Binary64.add a (snd kv)) dist 0.

(** [total > 0 ? (count / total) * 100 : 0] *)
Definition percentage (count tot : Q) : Q :=
  if Qle_bool tot 0 then 0 else Binary64.mul (Binary64.div count tot) 100.

(** The rows rendered by DashboardStats (web) and DashboardScreen (mobile):
    sentiment, count and percentage. *)
Definition rows (dist : list (jsstr * Q)) : list (jsstr * Q * Q) :=
  map (fun kv => (fst kv, snd kv, percentage (snd kv) (total dist))) dist.

End Dashboard.

(* ------------------------------------------------------------------------- *)
(** * Chat analysis engine

    The engine runs on the server and its code is not part of the sources
    at hand: the front-ends only call it and render its results. The parts
    below are modelled from the specification of the engine. *)

Module Engine.
Local Open Scope Q_scope.

Inductive label := Positive | Neutral | Negative.

Definition label_eqb (a b : label) : bool :=
  match a, b with
  | Positive, Positive | Neutral, Neutral | Negative, Negative => true
  | _, _ => false
  end.

(** Canonical message of the parser. *)
Record message := {
  msg_timestamp : option Z;
  msg_sender : jsstr;
  msg_text : jsstr;
  msg_is_media : bool
}.

(** ASCII lowercase of a code point. *)
Definition to_lower (c : Z) : Z :=
  if (65 <=? c)%Z && (c <=? 90)%Z then (c + 32)%Z else c.

(** Case-insensitive, whitespace-trimmed form of a name or a text. *)
Definition normalise (t : jsstr) : jsstr := map to_lower (trim t).

(** ** Sentiment scorer *)

Record emoji_analysis := {
  ea_label : label;
  ea_confidence : Q;
  ea_has_emojis : bool
}.

Record sentiment_result := {
  sr_label : label;
  sr_confidence : Q;
  sr_emotions : option (list (jsstr * Q));
  sr_emoji_analysis : option emoji_analysis
}.

(** Result of the optional neural classifier. *)
Record classifier_hint := {
  ch_label : label;
  ch_confidence : Q;
  ch_emotion_scores : list (jsstr * Q)
}.

(** Modelled from the spec: the filler words named by the Sentiment Scorer's
    phase 1 ("ok", "yeah", "hmm", "lol"). *)
Definition filler_words : list jsstr := [js "ok"; js "yeah"; js "hmm"; js "lol"].

(** Modelled from the spec: membership in the Unicode Emoji property,
    approximated by its main blocks (pictographs, symbols, dingbats, keycap
    bases, copyright and registered signs). *)
Definition is_emoji_cp (c : Z) : bool :=
  ((126976 <=? c)%Z && (c <=? 129791)%Z)
  || ((9728 <=? c)%Z && (c <=? 10175)%Z)
  || ((48 <=? c)%Z && (c <=? 57)%Z) || (c =? 35)%Z || (c =? 42)%Z
  || (c =? 169)%Z || (c =? 174)%Z.

(** Emoji Analyzer, [hasEmojis]. *)
Definition has_emoji (is_emoji : Z -> bool) (t : jsstr) : bool := existsb is_emoji t.

(** Phase 1 result: neutral, 0.55, no emoji. *)
Definition filler_result : sentiment_result :=
  {| sr_label := Neutral;
     sr_confidence := 11 # 20;
     sr_emotions := None;
     sr_emoji_analysis :=
       Some {| ea_label := Neutral; ea_confidence := 0; ea_has_emojis := false |} |}.

(** Modelled from the spec: [Score(text, classifierHint?)]. Phase 1 (filler
    detection) is written out; phases 2 to 9 are the parameter
    [later_phases], called with the neutral bias flag that phase 1 hands on
    when a filler carries an emoji. *)
Definition score (is_emoji : Z -> bool) (fillers : list jsstr)
  (later_phases : bool -> jsstr -> option classifier_hint -> sentiment_result)
  (text : jsstr) (hint : option classifier_hint) : sentiment_result :=
  let is_filler := existsb (Api.jsstr_eqb (normalise text)) fillers in
  if is_filler && negb (has_emoji is_emoji text) then filler_result
  else later_phases is_filler text hint.

(** Modelled from the spec: [AnalyzeMessage(text)]; [classify] is the
    optional classifier adapter ([None] when unavailable). *)
Definition analyze_message (is_emoji : Z -> bool) (fillers : list jsstr)
  (later_phases : bool -> jsstr -> option classifier_hint -> sentiment_result)
  (classify : jsstr -> option classifier_hint) (text : jsstr) : sentiment_result :=
  score is_emoji fillers later_phases text (classify text).

(** ** Sentiment rollup *)

Record sentiment_ratios := {
  positiveRatio : Q;
  neutralRatio : Q;
  negativeRatio : Q
}.

(** [count / total] stored as a float, 0 when the total is 0. *)
Definition ratio (count total : nat) : Q :=
  if (total =? 0)%nat then 0
  else Binary64.div (inject_Z (Z.of_nat count)) (inject_Z (Z.of_nat total)).

Section Rollup.
Variable score_label : jsstr -> label.

Definition count_label (l : label) (ms : list message) : nat :=
  List.length (filter (fun m => label_eqb (score_label (msg_text m)) l) ms).

Definition ratios_of (ms : list message) : sentiment_ratios :=
  let t := List.length ms in
  {| positiveRatio := ratio (count_label Positive ms) t;
     neutralRatio := ratio (count_label Neutral ms) t;
     negativeRatio := ratio (count_label Negative ms) t |}.

Definition scored (msgs : list message) : list message :=
  filter (fun m => negb (msg_is_media m)) msgs.

Definition scored_of (msgs : list message) (p : jsstr) : list message :=
  filter (fun m => Api.jsstr_eqb (msg_sender m) p) (scored msgs).

(** Modelled from the spec: per-participant ratios over the participant's
    non-media messages. *)
Definition participant_sentiment (msgs : list message) (p : jsstr) : sentiment_ratios :=
  ratios_of (scored_of msgs p).

(** Modelled from the spec: overall ratios over all non-media messages. *)
Definition overall_sentiment (msgs : list message) : sentiment_ratios :=
  ratios_of (scored msgs).

Definition rollup_diagnostics (msgs : list message) : list jsstr :=
  if (List.length (scored msgs) =? 0)%nat then [js "no_scored_messages"] else [].

End Rollup.

(** ** Red-flag detector *)

Inductive severity := Low | Medium | High.

Definition is_high (s : severity) : bool :=
  match s with High => true | _ => false end.

Record finding := {
  f_type : jsstr;
  f_severity : severity;
  f_description : jsstr;
  f_suggestion : jsstr
}.

Inductive health := Healthy | Moderate | Concerning.

(** The aggregated metrics the detector reads. *)
Record detector_input := {
  di_total_messages : nat;
  di_message_counts : list nat;          (* messageCount per participant *)
  di_response_times : list (Q * nat);    (* averageMinutes, count per participant *)
  di_period_days : nat;
  di_first_week_rate : Q;                (* messages per day, first week *)
  di_last_week_rate : Q;                 (* messages per day, last week *)
  di_initiations : list nat;             (* conversationInitiations per participant *)
  di_average_length : Q;                 (* average message length in chars *)
  di_question_ratio : Q;                 (* share of messages containing '?' *)
  di_negative_ratio : Q;                 (* overall negative ratio *)
  di_night_ratio : Q;                    (* share of messages in hours 0-4 *)
  di_daily_stddev : Q;                   (* std-dev of daily counts *)
  di_daily_mean : Q                      (* mean of daily counts *)
}.

Record red_flag_report := {
  red_flags : list finding;
  warnings : list finding;
  total_red_flags : nat;
  total_warnings : nat;
  overall_health : health
}.

Definition list_max (l : list nat) : nat := fold_left Nat.max l 0%nat.

Definition list_min (l : list nat) : nat :=
  match l with [] => 0%nat | x :: r => fold_left Nat.min r x end.

Definition Qlt_bool (a b : Q) : bool := negb (Qle_bool b a).

Definition mk_finding (ty : string) (sev : severity) (descr sugg : string) : finding :=
  {| f_type := js ty; f_severity := sev;
     f_description := js descr; f_suggestion := js sugg |}.

Definition rule (cond : bool) (f : finding) : list finding :=
  if cond then [f] else [].

(** Modelled from the spec: the five red-flag rules. *)
Definition red_flag_rules (i : detector_input) : list finding :=
  rule ((50 <=? di_total_messages i)%nat
        && (3 * list_min (di_message_counts i) <? list_max (di_message_counts i))%nat)
    (mk_finding "message_imbalance" High
       "One participant sends far more messages" "Balance the conversation")
  ++ rule (existsb (fun rt => (10 <=? snd rt)%nat && Qlt_bool 180 (fst rt))
             (di_response_times i))
    (mk_finding "slow_responses" Medium
       "Average response time above 3 hours" "Respond more promptly")
  ++ rule ((14 <=? di_period_days i)%nat
           && Qlt_bool (di_last_week_rate i) ((1 # 2) * di_first_week_rate i))
    (mk_finding "frequency_drop" High
       "Messaging frequency has dropped" "Reconnect with the other participant")
  ++ rule ((10 <=? fold_left Nat.add (di_initiations i) 0%nat)%nat
           && (4 * list_min (di_initiations i) <=? list_max (di_initiations i))%nat)
    (mk_finding "one_sided_initiation" Medium
       "One participant starts most conversations" "Take turns starting conversations")
  ++ rule (Qlt_bool (di_average_length i) 20
           && Qlt_bool (di_question_ratio i) (1 # 20))
    (mk_finding "low_engagement" Medium
       "Short messages and few questions" "Ask open questions").

(** Modelled from the spec: the three soft warnings (the spec gives them no
    severity; they are recorded as low). *)
Definition warning_rules (i : detector_input) : list finding :=
  rule (Qlt_bool (9 # 20) (di_negative_ratio i))
    (mk_finding "high_negative_sentiment" Low
       "Negative messages dominate" "Talk about what is going wrong")
  ++ rule (Qlt_bool (1 # 4) (di_night_ratio i))
    (mk_finding "night_activity_skew" Low
       "Much of the activity is at night" "Keep a regular sleep schedule")
  ++ rule (Qlt_bool (2 * di_daily_mean i) (di_daily_stddev i))
    (mk_finding "burst_silence" Low
       "Bursts of messages followed by silence" "Keep a steadier rhythm").

(** Modelled from the spec: health derivation. *)
Definition derive_health (rf ws : list finding) : health :=
  if (2 <=? List.length rf)%nat || existsb (fun f => is_high (f_severity f)) rf
  then Concerning
  else if negb (match rf with [] => true | _ => false end)
          || (2 <=? List.length ws)%nat
  then Moderate
  else Healthy.

(** Modelled from the spec: the Red-Flag Detector. *)
Definition detect_red_flags (i : detector_input) : red_flag_report :=
  let rf := red_flag_rules i in
  let ws := warning_rules i in
  {| red_flags := rf;
     warnings := ws;
     total_red_flags := List.length rf;
     total_warnings := List.length ws;
     overall_health := derive_health rf ws |}.

(** ** Participants and roles *)

Inductive role := Self | Other.

Definition is_self (r : role) : bool := match r with Self => true | Other => false end.

(** Modelled from the spec: distinct senders of the message stream. *)
Definition participants (msgs : list message) : list jsstr :=
  nodup (list_eq_dec Z.eq_dec) (map msg_sender msgs).

(** Modelled from the spec: [self] iff [selfName] is provided and matches
    the name case-insensitively after trimming. *)
Definition role_of (selfName : option jsstr) (name : jsstr) : role :=
  match selfName with
  | Some s => if Api.jsstr_eqb (normalise s) (normalise name) then Self else Other
  | None => Other
  end.

Definition assign_roles (selfName : option jsstr) (msgs : list message)
  : list (jsstr * role) :=
  map (fun n => (n, role_of selfName n)) (participants msgs).

End Engine.

(* ------------------------------------------------------------------------- *)
(** * Statement helpers and sample inputs *)

(** A string holds a non-whitespace code unit. *)
Definition has_non_ws (m : jsstr) : Prop := exists c, In c m /\ is_js_ws c = false.

(** The body [{"detail":"<d>"}] as text. *)
Definition detail_body_text (d : jsstr) : jsstr :=
  js "{" ++ [34] ++ js "detail" ++ [34] ++ js ":" ++ [34] ++ d ++ [34] ++ js "}".

Definition detail_response (code : Z) (d : jsstr) : Api.response :=
  {| Api.status := code;
     Api.status_text := js "Error";
     Api.content_type := Some (js "application/json");
     Api.body_text := detail_body_text d;
     Api.body_json := Some (Api.JObj [(js "detail", Api.JStr d)]) |}.

(** The request of C6: a non-2xx response served as JSON (and not as a
    PDF or binary download) whose parsed body is the object [fs]. *)
Definition json_object_error (r : Api.response) (fs : list (jsstr * Api.jsval)) : Prop :=
  Api.is_ok r = false
  /\ (exists ct, Api.content_type r = Some ct
       /\ includes ct (js "application/json") = true
       /\ includes ct (js "application/pdf") = false
       /\ includes ct (js "application/octet-stream") = false)
  /\ Api.body_json r = Some (Api.JObj fs).

(** [detail || message] of the body. *)
Definition detail_or_message (fs : list (jsstr * Api.jsval)) : Api.jsval :=
  Api.js_or (Api.get_prop fs (js "detail")) (Api.get_prop fs (js "message")).

Definition sample_chat : list Engine.message :=
  [ {| Engine.msg_timestamp := Some 1704061800; Engine.msg_sender := js "Alice";
       Engine.msg_text := js "I am feeling great today!"; Engine.msg_is_media := false |};
    {| Engine.msg_timestamp := Some 1704061860; Engine.msg_sender := js "Bob";
       Engine.msg_text := js "Awesome!"; Engine.msg_is_media := false |};
    {| Engine.msg_timestamp := Some 1704061920; Engine.msg_sender := js "alice";
       Engine.msg_text := js "ok"; Engine.msg_is_media := false |} ].

(** The conditions of the health derivation on a report. *)
Definition concerning_cond (r : Engine.red_flag_report) : Prop :=
  (2 <= Engine.total_red_flags r)%nat \/ Exists (fun f => Engine.f_severity f = Engine.High) (Engine.red_flags r).

Definition moderate_cond (r : Engine.red_flag_report) : Prop :=
  Engine.red_flags r <> [] \/ (2 <= Engine.total_warnings r)%nat.

(** Phases 2 to 9 of a sample scorer: a positive verdict carrying the
    classifier's emotions. *)
Definition sample_later_phases (neutral_bias : bool) (t : jsstr)
  (hint : option Engine.classifier_hint) : Engine.sentiment_result :=
  {| Engine.sr_label := Engine.Positive;
     Engine.sr_confidence := (9 # 10)%Q;
     Engine.sr_emotions := option_map Engine.ch_emotion_scores hint;
     Engine.sr_emoji_analysis := None |}.

Definition sample_classifier (t : jsstr) : option Engine.classifier_hint :=
  Some {| Engine.ch_label := Engine.Positive;
          Engine.ch_confidence := (4 # 5)%Q;
          Engine.ch_emotion_scores := [(js "joy", (4 # 5)%Q)] |}.

Module Helpers.

(** [text.substring(0, n)] for an integer [n]: a negative end counts as 0
    and an end past the string as its length. *)
Definition substring0 (s : jsstr) (n : Z) : jsstr := firstn (Z.to_nat n) s.

(** [truncateText(text, maxLength)] *)
Definition truncateText (text : jsstr) (maxLength : Z) : jsstr :=
  if Z.of_nat (List.length text) <=? maxLength then text
  else trim (substring0 text maxLength) ++ js "...".

(** [text.replace(/[<>]/g, '').trim()] *)
Definition sanitizeText (text : jsstr) : jsstr :=
  trim (filter (fun c => negb ((c =? 60) || (c =? 62))) text).

(** The regular expressions of the shape used by [validateEmail]: a
    one-unit character class, a class repeated one or more times, and
    concatenation. *)
Inductive regex :=
| RClass (p : Z -> bool)
| RPlus (p : Z -> bool)
| RCat (r1 r2 : regex).

(** Backtracking matching of [p+] against a prefix of [s], longest first,
    handing the rest to the continuation [k]. *)
Fixpoint match_plus (p : Z -> bool) (s : jsstr) (k : jsstr -> bool) : bool :=
  match s with
  | [] => false
  | c :: s' => p c && (match_plus p s' k || k s')
  end.

Fixpoint match_re (r : regex) (s : jsstr) (k : jsstr -> bool) : bool :=
  match r with
  | RClass p => match s with c :: s' => p c && k s' | [] => false end
  | RPlus p => match_plus p s k
  | RCat r1 r2 => match_re r1 s (fun s' => match_re r2 s' k)
  end.

(** [/^r$/.test(s)]: a match starting at the first code unit and ending at
    the last. *)
Definition regex_test (r : regex) (s : jsstr) : bool :=
  match_re r s (fun rest => match rest with [] => true | _ => false end).

(** [[^\s@]]: [\s] is the same set of code units as the one [trim]
    removes (WhiteSpace and LineTerminator). *)
Definition not_ws_at (c : Z) : bool := negb (is_js_ws c) && negb (c =? 64).

(** [/^[^\s@]+@[^\s@]+\.[^\s@]+$/] *)
Definition email_regex : regex :=
  RCat (RPlus not_ws_at)
    (RCat (RClass (fun c => c =? 64))
       (RCat (RPlus not_ws_at)
          (RCat (RClass (fun c => c =? 46)) (RPlus not_ws_at)))).

(** The strings matched by a regular expression. *)
Fixpoint regex_lang (r : regex) (u : jsstr) : Prop :=
  match r with
  | RClass p => exists c, u = [c] /\ p c = true
  | RPlus p => u <> [] /\ forallb p u = true
  | RCat r1 r2 => exists u1 u2, u = u1 ++ u2 /\ regex_lang r1 u1 /\ regex_lang r2 u2
  end.

(** [validateEmail(email)] *)
Definition validateEmail (email : jsstr) : bool := regex_test email_regex email.

(** [validatePassword(password)] *)
Definition validatePassword (password : jsstr) : bool :=
  (6 <=? List.length password)%nat.

Section TimeAgo.

(** The argument of [formatTimeAgo] (a date string or a timestamp), the time
    value in milliseconds of [new Date(date)] ([None] for an Invalid Date),
    and [formatDate(date)], whose text depends on the locale. *)
Variable date_input : Type.
Variable time_value : date_input -> option Z.
Variable formatDate : date_input -> jsstr.

(** [formatTimeAgo(date)] where [Date.now()] is [now]; for an Invalid Date
    the difference is [NaN], every comparison fails and the date is
    formatted. *)
Definition formatTimeAgo (now : Z) (date : date_input) : jsstr :=
  match time_value date with
  | None => formatDate date
  | Some t =>
      let diffInSeconds := (now - t) / 1000 in
      if diffInSeconds <? 60 then js "Just now"
      else if diffInSeconds <? 3600 then
        number_to_string (diffInSeconds / 60) ++ js " minutes ago"
      else if diffInSeconds <? 86400 then
        number_to_string (diffInSeconds / 3600) ++ js " hours ago"
      else if diffInSeconds <? 604800 then
        number_to_string (diffInSeconds / 86400) ++ js " days ago"
      else formatDate date
  end.

End TimeAgo.

(** [getErrorMessage(error)]; reading [message] of [null] or [undefined]
    throws a [TypeError] ([None]). *)
Definition getErrorMessage (error : Api.jsval) : option Api.jsval :=
  match error with
  | Api.JStr _ => Some error
  | Api.JUndef | Api.JNull => None
  | _ =>
      let m := Api.opt_get error (js "message") in
      if Api.truthy m then Some m
      else
        let d := Api.opt_get error (js "detail") in
        if Api.truthy d then Some d
        else Some (Api.JStr (js "An unexpected error occurred"))
  end.

End Helpers.

Module AnalysisProvider.
Import Api AnalysisContext.

(** [Array.isArray(data) ? data : data?.history || []] *)
Definition history_of (data : jsval) : jsval :=
  match data with
  | JArr _ => data
  | _ => js_or (opt_get data (js "history")) (JArr [])
  end.

(** The part of the provider state written by [loadAnalysisHistory]; the
    history holds whatever value the service returned. *)
Record load_state := {
  loaded_history : jsval;
  isLoading : bool;
  load_error : option jsstr
}.

(** [loadAnalysisHistory()] given the outcome of
    [analysisService.getAnalysisHistory]: the final state and the value the
    returned promise resolves to. A [Response] returned for a PDF or binary
    content type is an object without a [history] property. *)
Definition loadAnalysisHistory (server : outcome) (st : load_state)
  : load_state * jsval :=
  match server with
  | Thrown msg =>
      ({| loaded_history := loaded_history st;
          isLoading := false;
          load_error := if jsstr_eqb msg (js "UNAUTHORIZED") then None else Some msg |},
       JArr [])
  | Returned data =>
      let history := history_of data in
      ({| loaded_history := history; isLoading := false; load_error := None |}, history)
  | ReturnedRaw =>
      let history := JArr [] in
      ({| loaded_history := history; isLoading := false; load_error := None |}, history)
  end.

(** The operations of the provider on the entry history: [addAnalysis],
    [removeAnalysis] with the outcome of the server call, and
    [clearHistory]. *)
Inductive history_op :=
| OpAdd (c : add_call)
| OpRemove (analysisId : jsstr) (server : delete_result)
| OpClear.

Definition clearHistory (st : ctx_state) : ctx_state :=
  {| analysisHistory := []; error := error st |}.

Definition apply_op (st : ctx_state) (op : history_op) : ctx_state :=
  match op with
  | OpAdd (clk, m, r) =>
      {| analysisHistory := addAnalysis clk m r (analysisHistory st); error := error st |}
  | OpRemove id server => fst (removeAnalysis id server st)
  | OpClear => clearHistory st
  end.

Definition run_ops (st : ctx_state) (ops : list history_op) : ctx_state :=
  fold_left apply_op ops st.

(** The provider's initial state: [useState([])] and [useState(null)]. *)
Definition initial_state : ctx_state := {| analysisHistory := []; error := None |}.

End AnalysisProvider.

Module AnalyzeScreen.
Local Open Scope Q_scope.

(** [a > b] on numbers. *)
Definition Qgt_bool (a b : Q) : bool := negb (Qle_bool a b).

(** [handleAnalyze] up to the service call: the alert title shown, or the
    text passed to [analyzeMessage] and then to [addAnalysis]. *)
Definition analyze_request (message : jsstr) : jsstr + jsstr :=
  let trimmed := trim message in
  if negb (truthy_str trimmed) then inl (js "Empty Message")
  else if (5000 <? List.length trimmed)%nat then inl (js "Too Long")
  else inr trimmed.

Inductive risk_level := RiskLow | RiskMedium | RiskHigh.

Section Risk.

(** [String.prototype.toLowerCase]. *)
Variable toLowerCase : jsstr -> jsstr.

(** [sentiment?.toLowerCase() === 'negative'] for a [sentiment] that is a
    string, or absent or [null] ([None]). *)
Definition is_negative (sentiment : option jsstr) : bool :=
  match sentiment with
  | Some s => Api.jsstr_eqb (toLowerCase s) (js "negative")
  | None => false
  end.

(** [RiskIndicator({ sentiment, confidence })] of the result card, for a
    [confidence] that is a number, or absent or [null] ([None]). *)
Definition RiskIndicator (sentiment : option jsstr) (confidence : option Q) : risk_level :=
  let conf := match confidence with Some c => c | None => 0 end in
  if is_negative sentiment && Qgt_bool conf (7 # 10) then RiskHigh
  else if is_negative sentiment && Qgt_bool conf (5 # 10) then RiskMedium
  else RiskLow.

(** The crisis condition of [handleAnalyze]:
    [data.sentiment?.toLowerCase() === 'negative' && data.confidence > 0.7];
    [undefined > 0.7] and [null > 0.7] are false. *)
Definition crisis_alert (sentiment : option jsstr) (confidence : option Q) : bool :=
  is_negative sentiment
  && match confidence with Some c => Qgt_bool c (7 # 10) | None => false end.

End Risk.
End AnalyzeScreen.

Module ErrorAlert.
Import Api.

Record alert := { title : jsstr; alert_message : jsval; alert_type : jsstr }.

Definition mk_alert (t m ty : string) : alert :=
  {| title := js t; alert_message := JStr (js m); alert_type := js ty |}.

Definition generic_alert : alert :=
  mk_alert "Something went wrong"
    "Please try again. If the problem persists, contact support." "error".

(** [x.includes(word)] on the [loc] of a validation error: an array
    compares its elements with the string, a string searches for it, any
    other value throws ([None]). *)
Definition loc_includes (loc : jsval) (word : jsstr) : option bool :=
  match loc with
  | JArr l => Some (existsb (fun v => match v with JStr s => jsstr_eqb s word | _ => false end) l)
  | JStr s => Some (includes s word)
  | _ => None
  end.

Definition is_str (v : jsval) (s : jsstr) : bool :=
  match v with JStr x => jsstr_eqb x s | _ => false end.

Section Classify.

(** [JSON.parse] ([None] when it throws) and [String.prototype.toLowerCase]. *)
Variable json_parse : jsstr -> option jsval.
Variable toLowerCase : jsstr -> jsstr.

(** The [try] block parsing a backend error; [None] when it throws or falls
    through to the generic alert. *)
Definition parsed_alert (error : jsstr) : option alert :=
  match json_parse error with
  | None => None
  | Some errorObj =>
      match errorObj with
      | JUndef | JNull => None
      | _ =>
          let detail := opt_get errorObj (js "detail") in
          if truthy detail then
            let validation := Some {| title := js "Validation Error";
                                      alert_message := detail;
                                      alert_type := js "warning" |} in
            match detail with
            | JArr l =>
                let firstError := nth 0 l JUndef in
                match firstError with
                | JUndef | JNull => None
                | _ =>
                    let ty := opt_get firstError (js "type") in
                    let loc := opt_get firstError (js "loc") in
                    let pw :=
                      if is_str ty (js "string_too_short")
                      then loc_includes loc (js "password") else Some false in
                    match pw with
                    | None => None
                    | Some true =>
                        Some (mk_alert "Password Too Short"
                                "Your password must be at least 6 characters long." "warning")
                    | Some false =>
                        let em :=
                          if is_str ty (js "value_error")
                          then loc_includes loc (js "email") else Some false in
                        match em with
                        | None => None
                        | Some true =>
                            Some (mk_alert "Invalid Email"
                                    "Please enter a valid email address." "warning")
                        | Some false => validation
                        end
                    end
                end
            | _ => validation
            end
          else None
      end
  end.

(** [getErrorMessage(error)] of ErrorAlert, for a string [error] (the
    callers pass [error.message] or a fixed text). *)
Definition getErrorMessage (error : jsstr) : alert :=
  if includes error (js "422") then
    mk_alert "Input Validation Error"
      "Please check your input and try again. Make sure your password is at least 6 characters long."
      "warning"
  else if includes error (js "401") then
    mk_alert "Authentication Failed"
      "Invalid email or password. Please check your credentials and try again." "error"
  else if includes error (js "400") then
    mk_alert "Invalid Request"
      "The information provided is not valid. Please check and try again." "warning"
  else if includes error (js "500") then
    mk_alert "Server Error"
      "Something went wrong on our end. Please try again in a moment." "error"
  else if includes (toLowerCase error) (js "fetch") then
    mk_alert "Connection Error"
      "Unable to connect to the server. Please check your internet connection and try again."
      "error"
  else match parsed_alert error with Some a => a | None => generic_alert end.

End Classify.
End ErrorAlert.

Module QueryString.
Import Api.

(** The code units [encodeURIComponent] leaves as they are: ASCII letters,
    digits and [- _ . ! ~ * ' ( )]. *)
Definition is_unreserved (c : Z) : bool :=
  ((65 <=? c) && (c <=? 90)) || ((97 <=? c) && (c <=? 122))
  || ((48 <=? c) && (c <=? 57))
  || existsb (Z.eqb c) [45; 95; 46; 33; 126; 42; 39; 40; 41].

(** UTF-8 encoding of a code point. *)
Definition utf8 (cp : Z) : list Z :=
  if cp <? 128 then [cp]
  else if cp <? 2048 then [192 + cp / 64; 128 + cp mod 64]
  else if cp <? 65536 then [224 + cp / 4096; 128 + (cp / 64) mod 64; 128 + cp mod 64]
  else [240 + cp / 262144; 128 + (cp / 4096) mod 64; 128 + (cp / 64) mod 64;
        128 + cp mod 64].

(** An uppercase hexadecimal digit. *)
Definition hex_digit (n : Z) : Z := if n <? 10 then 48 + n else 55 + n.

(** [%XY] for an octet. *)
Definition percent (b : Z) : jsstr := [37; hex_digit (b / 16); hex_digit (b mod 16)].

Definition is_high_surrogate (c : Z) : bool := (55296 <=? c) && (c <=? 56319).
Definition is_low_surrogate (c : Z) : bool := (56320 <=? c) && (c <=? 57343).

(** [encodeURIComponent(s)] on a string of UTF-16 code units; [None] for the
    [URIError] thrown on a lone surrogate. *)
Fixpoint encodeURIComponent (s : jsstr) : option jsstr :=
  match s with
  | [] => Some []
  | c :: r =>
      if is_unreserved c then option_map (cons c) (encodeURIComponent r)
      else if is_high_surrogate c then
        match r with
        | d :: r' =>
            if is_low_surrogate d then
              let cp := (c - 55296) * 1024 + (d - 56320) + 65536 in
              option_map (app (flat_map percent (utf8 cp))) (encodeURIComponent r')
            else None
        | [] => None
        end
      else if is_low_surrogate c then None
      else option_map (app (flat_map percent (utf8 c))) (encodeURIComponent r)
  end.

(** [arr.join(sep)] of strings. *)
Fixpoint join_with (sep : Z) (l : list jsstr) : jsstr :=
  match l with
  | [] => []
  | [x] => x
  | x :: r => x ++ [sep] ++ join_with sep r
  end.

(** [s.split(sep)] for a one-unit separator. *)
Fixpoint split_on (sep : Z) (s : jsstr) : list jsstr :=
  match s with
  | [] => [[]]
  | c :: r =>
      if c =? sep then [] :: split_on sep r
      else match split_on sep r with
           | [] => [[c]]
           | w :: ws => (c :: w) :: ws
           end
  end.

(** Runs a fallible map in order, stopping at the first failure. *)
Fixpoint map_opt {A B} (f : A -> option B) (l : list A) : option (list B) :=
  match l with
  | [] => Some []
  | x :: r =>
      match f x with
      | None => None
      | Some y => option_map (cons y) (map_opt f r)
      end
  end.

(** The entries of [params] kept by [get]: those not [undefined] or [null]. *)
Definition kept_params (params : list (jsstr * jsval)) : list (jsstr * jsval) :=
  filter (fun kv => match snd kv with JUndef | JNull => false | _ => true end) params.

(** [`${encodeURIComponent(k)}=${encodeURIComponent(v)}`] *)
Definition query_field (kv : jsstr * jsval) : option jsstr :=
  match encodeURIComponent (fst kv), encodeURIComponent (to_string (snd kv)) with
  | Some k, Some v => Some (k ++ [61] ++ v)
  | _, _ => None
  end.

(** Mobile app, services/api.js [get(endpoint, params)]: the URL passed to
    [request], for [params] given as the list [Object.entries] returns;
    [None] when [encodeURIComponent] throws. *)
Definition get_url (endpoint : jsstr) (params : list (jsstr * jsval)) : option jsstr :=
  match map_opt query_field (kept_params params) with
  | None => None
  | Some fields =>
      let query := join_with 38 fields in
      if truthy_str query then Some (endpoint ++ [63] ++ query) else Some endpoint
  end.

(** The value of an uppercase hexadecimal digit. *)
Definition hex_value (x : Z) : Z := if x <=? 57 then x - 48 else x - 55.

Definition octet (h l : Z) : Z := 16 * hex_value h + hex_value l.

(** UTF-16 code units of a code point. *)
Definition utf16_units (cp : Z) : jsstr :=
  if cp <? 65536 then [cp]
  else [55296 + (cp - 65536) / 1024; 56320 + (cp - 65536) mod 1024].

(** Reading back the output of [encodeURIComponent]: each [%XY] sequence of
    a UTF-8 encoded code point gives the code point's UTF-16 units and any
    other unit stands for itself. It serves to show that the encoding loses
    nothing; it does not check its input as [decodeURIComponent] does. *)
Fixpoint percent_decode (e : jsstr) : option jsstr :=
  match e with
  | [] => Some []
  | c :: t =>
      if c =? 37 then
        match t with
        | h1 :: l1 :: t1 =>
            let b1 := octet h1 l1 in
            if b1 <? 128 then option_map (app (utf16_units b1)) (percent_decode t1)
            else
              match t1 with
              | _ :: h2 :: l2 :: t2 =>
                  let b2 := octet h2 l2 in
                  if b1 <? 224 then
                    option_map (app (utf16_units ((b1 - 192) * 64 + (b2 - 128))))
                      (percent_decode t2)
                  else
                    match t2 with
                    | _ :: h3 :: l3 :: t3 =>
                        let b3 := octet h3 l3 in
                        if b1 <? 240 then
                          option_map
                            (app (utf16_units
                                    ((b1 - 224) * 4096 + (b2 - 128) * 64 + (b3 - 128))))
                            (percent_decode t3)
                        else
                          match t3 with
                          | _ :: h4 :: l4 :: t4 =>
                              let b4 := octet h4 l4 in
                              option_map
                                (app (utf16_units
                                        ((b1 - 240) * 262144 + (b2 - 128) * 4096
                                         + (b3 - 128) * 64 + (b4 - 128))))
                                (percent_decode t4)
                          | _ => None
                          end
                    | _ => None
                    end
              | _ => None
              end
        | _ => None
        end
      else option_map (cons c) (percent_decode t)
  end.

End QueryString.

(** The code units of a JavaScript string are 16-bit values. *)
Definition code_units_ok (s : jsstr) : bool :=
  forallb (fun c => (0 <=? c) && (c <=? 65535)) s.

(** Sample inputs of the extra properties. *)

Definition sample_result : AnalysisContext.analysis_result :=
  {| AnalysisContext.r_analysis_id := Some (js "a2");
     AnalysisContext.r_sentiment := Api.JStr (js "positive");
     AnalysisContext.r_confidence := Api.JNum 1;
     AnalysisContext.r_emotions := Api.JUndef;
     AnalysisContext.r_emoji_analysis := Api.JUndef;
     AnalysisContext.r_timestamp := None |}.

Definition sample_clock : AnalysisContext.clock :=
  {| AnalysisContext.now_ms := 1000; AnalysisContext.now_iso := js "1970-01-01T00:00:01.000Z" |}.

Definition sample_ctx : AnalysisContext.ctx_state :=
  {| AnalysisContext.analysisHistory :=
       [AnalysisContext.new_entry sample_clock (js "earlier")
          {| AnalysisContext.r_analysis_id := Some (js "a1");
             AnalysisContext.r_sentiment := Api.JUndef;
             AnalysisContext.r_confidence := Api.JUndef;
             AnalysisContext.r_emotions := Api.JUndef;
             AnalysisContext.r_emoji_analysis := Api.JUndef;
             AnalysisContext.r_timestamp := None |}];
     AnalysisContext.error := None |}.

Definition sample_text_response : Api.response :=
  {| Api.status := 200; Api.status_text := js "OK";
     Api.content_type := Some (js "text/plain");
     Api.body_text := js "pong"; Api.body_json := None |}.


(* ========================================================================= *)
(** * Proofs *)

(** ** Properties of [trim] *)

Lemma trim_start_nil_iff (s : jsstr) :
  trim_start s = [] <-> forallb is_js_ws s = true.
Proof.
  induction s as [|c r IH]; simpl; [tauto|].
  destruct (is_js_ws c); simpl; [exact IH | split; discriminate].
Qed.

Lemma trim_start_shape (s : jsstr) :
  trim_start s = [] \/ exists c r, trim_start s = c :: r /\ is_js_ws c = false.
Proof.
  induction s as [|c r IH]; simpl; auto.
  destruct (is_js_ws c) eqn:E; auto. right; eauto.
Qed.

Lemma forallb_rev_eq (f : Z -> bool) (s : jsstr) :
  forallb f (rev s) = forallb f s.
Proof.
  induction s as [|c r IH]; simpl; auto.
  rewrite forallb_app, IH; simpl. rewrite andb_true_r, andb_comm. reflexivity.
Qed.

Lemma trim_end_nil_iff (s : jsstr) :
  trim_end s = [] <-> forallb is_js_ws s = true.
Proof.
  unfold trim_end. rewrite <- forallb_rev_eq, <- trim_start_nil_iff.
  split; intro H.
  - rewrite <- (rev_involutive (trim_start (rev s))), H. reflexivity.
  - rewrite H. reflexivity.
Qed.

Lemma trim_nil_iff (s : jsstr) :
  trim s = [] <-> forallb is_js_ws s = true.
Proof.
  unfold trim. rewrite trim_end_nil_iff.
  destruct (trim_start_shape s) as [H|(c & r & H & Hc)].
  - rewrite H. rewrite <- (trim_start_nil_iff s). simpl. split; auto.
  - rewrite H. simpl. rewrite Hc. simpl. split; [discriminate|].
    intro Hall. apply trim_start_nil_iff in Hall. congruence.
Qed.

Lemma trim_start_length (s : jsstr) :
  (List.length (trim_start s) <= List.length s)%nat.
Proof.
  induction s as [|c r IH]; simpl; auto.
  destruct (is_js_ws c); simpl; lia.
Qed.

Lemma trim_length (s : jsstr) :
  (List.length (trim s) <= List.length s)%nat.
Proof.
  unfold trim, trim_end. rewrite length_rev.
  etransitivity; [apply trim_start_length|].
  rewrite length_rev. apply trim_start_length.
Qed.

Lemma forallb_false_iff (f : Z -> bool) (s : jsstr) :
  forallb f s = false <-> exists c, In c s /\ f c = false.
Proof.
  induction s as [|c r IH]; simpl.
  - split; [discriminate | intros (x & [] & _)].
  - destruct (f c) eqn:E; simpl.
    + rewrite IH. split.
      * intros (x & Hx & Hf). eauto.
      * intros (x & [<-|Hx] & Hf); [congruence | eauto].
    + split; [intros _; eauto | reflexivity].
Qed.

Lemma truthy_trim_iff (m : jsstr) :
  truthy_str (trim m) = true <-> has_non_ws m.
Proof.
  unfold has_non_ws. rewrite <- forallb_false_iff.
  destruct (trim m) eqn:E; simpl.
  - apply trim_nil_iff in E. rewrite E. split; discriminate.
  - split; [|reflexivity]. intros _.
    destruct (forallb is_js_ws m) eqn:F; [|reflexivity].
    apply trim_nil_iff in F. congruence.
Qed.

Example validateMessage_samples :
  MessageForm.validateMessage (js "  hi ") = true
  /\ MessageForm.validateMessage (js "   ") = false
  /\ MessageForm.validateMessage (repeat 97 5001) = false
  /\ MessageForm.validateMessage (repeat 97 5000) = true.
Proof. vm_compute. repeat split. Qed.

(** ** C4 *)

(** C4: a message is accepted for single-message analysis ([validateMessage]
    holds and the analyze form issues the request), on the web front-end and
    on the mobile app alike, iff it holds a non-whitespace code unit and has
    at most 5000 code units. *)
Theorem validateMessage_accepts_iff (m : jsstr) :
  (MessageForm.validateMessage m && MessageForm.web_submits m = true
     <-> has_non_ws m /\ (List.length m <= 5000)%nat)
  /\ (MessageForm.validateMessage m && MessageForm.mobile_submits m = true
     <-> has_non_ws m /\ (List.length m <= 5000)%nat).
Proof.
  unfold MessageForm.validateMessage, MessageForm.web_submits,
    MessageForm.mobile_submits.
  pose proof (trim_length m) as Hlen.
  rewrite <- truthy_trim_iff.
  destruct (trim m) as [|c r] eqn:E; simpl.
  - split; split; try discriminate; intros [H _]; discriminate.
  - destruct (Nat.leb_spec (List.length m) 5000) as [Hm|Hm];
      simpl in Hlen.
    + destruct (Nat.ltb_spec 5000 (S (List.length r))); [lia|].
      repeat split; auto.
    + repeat split; try discriminate; intros [_ H]; lia.
Qed.

(** ** C5 *)

Example import_samples :
  ChatImportForm.is_rejected
    (ChatImportForm.mobile_handleImport (js "  short  ") (js "whatsapp") []) = true
  /\ ChatImportForm.mobile_handleImport (js " Alice: hi Bob ") (js "whatsapp") (js " Al ")
     = ChatImportForm.ImportIssued (js "Alice: hi Bob") (Some (js "whatsapp")) (Some (js "Al")).
Proof. vm_compute. split; reflexivity. Qed.

(** C5 (as amended): an import whose trimmed content has fewer than 10 code
    units is rejected by the mobile ChatImportScreen with an alert, before
    [importChat] is called; the web ChatImport, whatever the length of the
    content, rejects on the client only content without a non-whitespace
    code unit, and otherwise calls [importChat] with the content as typed. *)
Theorem import_short_content_rejected (content formatType userName : jsstr) :
  ((List.length (trim content) < 10)%nat ->
   ChatImportForm.is_rejected
     (ChatImportForm.mobile_handleImport content formatType userName) = true)
  /\ (ChatImportForm.is_rejected
        (ChatImportForm.web_handleAnalyze content formatType userName) = true
      <-> ~ has_non_ws content)
  /\ (has_non_ws content ->
      exists f u, ChatImportForm.web_handleAnalyze content formatType userName
                  = ChatImportForm.ImportIssued content f u).
Proof.
  unfold ChatImportForm.mobile_handleImport, ChatImportForm.web_handleAnalyze.
  rewrite <- truthy_trim_iff.
  destruct (truthy_str (trim content)); simpl.
  - split.
    + intro Hshort.
      destruct (Nat.ltb_spec (List.length (trim content)) 10) as [Hlt|Hge]; [|lia].
      reflexivity.
    + split.
      * split; [discriminate | intro Hn; exfalso; apply Hn; reflexivity].
      * intros _. eauto.
  - split; [reflexivity|]. split.
    + split; [intros _ Hn; discriminate | reflexivity].
    + intro Hn; discriminate.
Qed.

(** C5 counterexample: the five-character content ["hello"] is not rejected
    by the web ChatImport, which calls [importChat] with it. *)
Lemma import_short_content_counterexample :
  (List.length (trim (js "hello")) < 10)%nat
  /\ ChatImportForm.web_handleAnalyze (js "hello") [] []
     = ChatImportForm.ImportIssued (js "hello") None None.
Proof. vm_compute. split; [lia | reflexivity]. Qed.

(** ** C6 *)

Example api_error_samples :
  snd (Api.web_request (detail_response 400 (js "Invalid input")))
    = Api.Thrown (js "HTTP 400: Invalid input")
  /\ Api.mobile_request (detail_response 400 (js "Invalid input"))
    = Api.Thrown (js "Network error: Invalid input")
  /\ Api.mobile_request (detail_response 422 (js "HTTP body too large"))
    = Api.Thrown (js "HTTP body too large")
  /\ Api.web_request (detail_response 401 (js "Token expired"))
    = (true, Api.Thrown (js "HTTP 401: Token expired")).
Proof. vm_compute. repeat split. Qed.

(** C6 (as amended): for a non-2xx JSON response whose body is an object and
    whose [detail] (or, when [detail] is falsy, [message]) is a non-empty
    string [d], the web client throws ["HTTP <status>: " ++ d]; the mobile
    client throws ['UNAUTHORIZED'] on a 401 whatever the body, and otherwise
    an error whose message is [d], possibly behind the prefix
    ["Network error: "]. *)
Theorem api_error_message_from_detail (r : Api.response)
  (fs : list (jsstr * Api.jsval)) (d : jsstr)
  (Hresp : json_object_error r fs)
  (Hd : detail_or_message fs = Api.JStr d) (Hne : d <> []) :
  snd (Api.web_request r) = Api.Thrown (Api.http_prefix r ++ js ": " ++ d)
  /\ (Api.status r = 401 -> Api.mobile_request r = Api.Thrown (js "UNAUTHORIZED"))
  /\ (Api.status r <> 401 ->
      Api.mobile_request r = Api.Thrown d
      \/ Api.mobile_request r = Api.Thrown (js "Network error: " ++ d)).
Proof.
  destruct Hresp as (Hok & (ct & Hct & Hjson & Hpdf & Hoct) & Hbody).
  unfold detail_or_message in Hd.
  assert (Htr : Api.truthy (Api.JStr d) = true)
    by (destruct d; [congruence | reflexivity]).
  split; [|split].
  - unfold Api.web_request. rewrite Hct, Hjson, Hbody, Hok. simpl.
    rewrite Hd. reflexivity.
  - intro H401. unfold Api.mobile_request. rewrite H401. reflexivity.
  - intro Hn401. unfold Api.mobile_request.
    apply Z.eqb_neq in Hn401. rewrite Hn401, Hct, Hpdf, Hoct, Hjson, Hbody, Hok.
    simpl. rewrite Hd. unfold Api.js_or; rewrite Htr. simpl.
    unfold Api.mobile_catch.
    destruct (Api.jsstr_eqb d (js "UNAUTHORIZED")); [left; reflexivity|].
    destruct (starts_with d (js "HTTP")); [left | right]; reflexivity.
Qed.

(** C6 counterexample: a 401 whose JSON body is [{"detail":"Token expired"}]
    makes the mobile client throw ['UNAUTHORIZED'], a message that does not
    contain the body's [detail]. *)
Lemma api_error_detail_counterexample :
  json_object_error (detail_response 401 (js "Token expired"))
    [(js "detail", Api.JStr (js "Token expired"))]
  /\ includes (Api.thrown_message
                 (Api.mobile_request (detail_response 401 (js "Token expired"))))
       (js "Token expired") = false.
Proof.
  split; [|vm_compute; reflexivity].
  split; [vm_compute; reflexivity|]. split; [|reflexivity].
  exists (js "application/json"). vm_compute. repeat split.
Qed.

(** ** C9 and C10 *)

Lemma jsstr_eqb_eq (a b : jsstr) : Api.jsstr_eqb a b = true <-> a = b.
Proof. unfold Api.jsstr_eqb. destruct (list_eq_dec Z.eq_dec a b); split; congruence. Qed.

Section History.
Import AnalysisContext.

Lemma existsb_id_iff (id : jsstr) (h : list entry) :
  existsb (fun item => Api.jsstr_eqb (analysis_id item) id) h = true
  <-> In id (map analysis_id h).
Proof.
  rewrite existsb_exists, in_map_iff. split.
  - intros (x & Hx & Heq). apply jsstr_eqb_eq in Heq. eauto.
  - intros (x & Heq & Hx). exists x. split; [exact Hx|]. apply jsstr_eqb_eq; exact Heq.
Qed.

Lemma NoDup_firstn' {A} (n : nat) (l : list A) : NoDup l -> NoDup (firstn n l).
Proof.
  intro H. rewrite <- (firstn_skipn n l) in H. eapply NoDup_app_remove_r; eauto.
Qed.

Lemma addAnalysis_cases (clk : clock) (msg : jsstr) (res : analysis_result) (h : list entry) :
  let e := new_entry clk msg res in
  (In (analysis_id e) (map analysis_id h) -> addAnalysis clk msg res h = h)
  /\ (~ In (analysis_id e) (map analysis_id h) ->
      addAnalysis clk msg res h = e :: firstn 99 h).
Proof.
  intro e. unfold addAnalysis. fold e. split; intro Hin.
  - apply existsb_id_iff in Hin. rewrite Hin. reflexivity.
  - destruct (existsb _ h) eqn:E; [apply existsb_id_iff in E; contradiction|].
    reflexivity.
Qed.

Lemma addAnalysis_preserves (clk : clock) (msg : jsstr) (res : analysis_result)
  (h : list entry) :
  (List.length h <= 100)%nat -> NoDup (map analysis_id h) ->
  (List.length (addAnalysis clk msg res h) <= 100)%nat
  /\ NoDup (map analysis_id (addAnalysis clk msg res h)).
Proof.
  intros Hlen Hnd.
  destruct (addAnalysis_cases clk msg res h) as [Hdup Hnew].
  destruct (in_dec (list_eq_dec Z.eq_dec)
              (analysis_id (new_entry clk msg res)) (map analysis_id h)) as [Hin|Hin].
  - rewrite (Hdup Hin). auto.
  - rewrite (Hnew Hin). split.
    + change (S (List.length (firstn 99 h)) <= 100)%nat.
      rewrite length_firstn. lia.
    + change (NoDup (analysis_id (new_entry clk msg res)
                     :: map analysis_id (firstn 99 h))).
      constructor.
      * rewrite <- firstn_map. intro Hf. apply Hin.
        rewrite <- (firstn_skipn 99 (map analysis_id h)). apply in_or_app. left. exact Hf.
      * rewrite <- firstn_map. apply NoDup_firstn'. exact Hnd.
Qed.

Lemma run_adds_from_preserves (calls : list add_call) (h : list entry) :
  (List.length h <= 100)%nat -> NoDup (map analysis_id h) ->
  (List.length (run_adds_from h calls) <= 100)%nat
  /\ NoDup (map analysis_id (run_adds_from h calls)).
Proof.
  revert h. induction calls as [|[[clk m] r] calls IH]; intros h Hlen Hnd; simpl.
  - auto.
  - destruct (addAnalysis_preserves clk m r h Hlen Hnd) as [Hl Hn].
    apply IH; assumption.
Qed.

End History.

(** C9: after any sequence of [addAnalysis] calls from the initial empty
    history, the history holds at most 100 entries with pairwise distinct
    [analysis_id]s; a further call whose entry id is already present leaves
    it unchanged, and otherwise puts the new entry at the front, followed by
    at most 99 of the previous entries in their order. *)
Theorem addAnalysis_history_invariants (calls : list AnalysisContext.add_call)
  (clk : AnalysisContext.clock) (msg : jsstr)
  (res : AnalysisContext.analysis_result) :
  let h := AnalysisContext.run_adds calls in
  let e := AnalysisContext.new_entry clk msg res in
  (List.length h <= 100)%nat
  /\ NoDup (map AnalysisContext.analysis_id h)
  /\ (In (AnalysisContext.analysis_id e) (map AnalysisContext.analysis_id h) ->
      AnalysisContext.addAnalysis clk msg res h = h)
  /\ (~ In (AnalysisContext.analysis_id e) (map AnalysisContext.analysis_id h) ->
      AnalysisContext.addAnalysis clk msg res h = e :: firstn 99 h).
Proof.
  intros h e.
  destruct (run_adds_from_preserves calls [] ltac:(simpl; lia) (NoDup_nil _))
    as [Hl Hn].
  destruct (addAnalysis_cases clk msg res h) as [Hdup Hnew].
  repeat split; assumption.
Qed.

(** C10: when the server delete resolves, [removeAnalysis] keeps, in order,
    exactly the entries whose [analysis_id] differs from the argument and
    throws nothing; when it rejects, the history is unchanged, the error
    message is recorded and rethrown. *)
Theorem removeAnalysis_atomic (analysisId : jsstr) (st : AnalysisContext.ctx_state)
  (u : unit) (err : jsstr) :
  (let (st', thrown) := AnalysisContext.removeAnalysis analysisId (inl u) st in
   thrown = None
   /\ AnalysisContext.error st' = AnalysisContext.error st
   /\ AnalysisContext.analysisHistory st'
      = filter (fun a => negb (Api.jsstr_eqb (AnalysisContext.analysis_id a) analysisId))
          (AnalysisContext.analysisHistory st)
   /\ (forall a, In a (AnalysisContext.analysisHistory st')
        <-> In a (AnalysisContext.analysisHistory st)
            /\ AnalysisContext.analysis_id a <> analysisId))
  /\ AnalysisContext.removeAnalysis analysisId (inr err) st
     = ({| AnalysisContext.analysisHistory := AnalysisContext.analysisHistory st;
           AnalysisContext.error := Some err |}, Some err).
Proof.
  split; [|reflexivity].
  simpl. repeat split; try reflexivity.
  - apply filter_In in H. apply H.
  - intros Heq. apply filter_In in H. destruct H as [_ Hb].
    rewrite Heq in Hb. rewrite (proj2 (jsstr_eqb_eq _ _) eq_refl) in Hb. discriminate.
  - intros [Ha Hne]. apply filter_In. split; [exact Ha|].
    destruct (Api.jsstr_eqb _ _) eqn:E; [apply jsstr_eqb_eq in E; contradiction|].
    reflexivity.
Qed.

(** ** Binary64 rounding error *)

Section FloatProofs.
Import Binary64.

Lemma round_ne_spec (num den : Z) : 0 < den ->
  - den <= 2 * (round_ne num den * den - num) <= den
  /\ (0 <= num -> 0 <= round_ne num den).
Proof.
  intro Hd. unfold round_ne.
  pose proof (Z.div_mod num den ltac:(lia)) as Hdm.
  pose proof (Z.mod_pos_bound num den Hd) as Hm.
  assert (Hq : 0 <= num -> 0 <= num / den) by (intro; apply Z.div_pos; lia).
  destruct (Z.ltb_spec (2 * (num mod den)) den);
  [|destruct (Z.ltb_spec den (2 * (num mod den)));
    [|destruct (Z.even (num / den))]];
  split; try (intro; specialize (Hq ltac:(assumption)); lia); nia.
Qed.

Local Open Scope Q_scope.

Lemma two_pow_pos (k : Z) : 0 < (2 # 1) ^ k.
Proof. apply Qpower_0_lt. reflexivity. Qed.

Lemma inject_pow2 (k : Z) : (0 <= k)%Z -> inject_Z (2 ^ k) == (2 # 1) ^ k.
Proof. intro Hk. rewrite Zpower_Qpower by exact Hk. reflexivity. Qed.

Lemma pow2_opp (k : Z) : (2 # 1) ^ k * (2 # 1) ^ (- k) == 1.
Proof.
  rewrite Qpower_opp. field. apply Qnot_eq_sym, Qlt_not_eq, two_pow_pos.
Qed.

Lemma scaled_eq (n k : Z) : scaled n k == inject_Z n * (2 # 1) ^ k.
Proof.
  unfold scaled. destruct (Z.leb_spec 0 k) as [Hk|Hk].
  - rewrite inject_Z_mult, inject_pow2 by exact Hk. reflexivity.
  - assert (Hp : (0 < 2 ^ (- k))%Z) by (apply Z.pow_pos_nonneg; lia).
    rewrite Qmake_Qdiv, Z2Pos.id by exact Hp.
    rewrite inject_pow2 by lia.
    pose proof (pow2_opp k) as H1. pose proof (two_pow_pos (- k)) as H2.
    pose proof (two_pow_pos k) as H3.
    rewrite <- (Qmult_1_r (inject_Z n / _)), <- H1. field.
    apply Qnot_eq_sym, Qlt_not_eq, H2.
Qed.

Ltac qcast :=
  unfold Z.sub;
  repeat (rewrite inject_Z_mult || rewrite inject_Z_plus || rewrite inject_Z_opp);
  rewrite ?inject_pow2 by lia; reflexivity.

Lemma round_at_error (a b k : Z) : (0 <= a)%Z -> (0 < b)%Z ->
  0 <= round_at a b k
  /\ inject_Z a / inject_Z b - (2 # 1) ^ k * (1 # 2) <= round_at a b k
     <= inject_Z a / inject_Z b + (2 # 1) ^ k * (1 # 2).
Proof.
  intros Ha Hb. unfold round_at.
  assert (HB : 0 < inject_Z b) by (unfold Qlt; simpl; lia).
  pose proof (two_pow_pos k) as HP.
  set (X := inject_Z a / inject_Z b).
  assert (HX : inject_Z a == X * inject_Z b)
    by (unfold X; field; apply Qnot_eq_sym, Qlt_not_eq, HB).
  destruct (Z.leb_spec 0 k) as [Hk|Hk].
  - assert (Hd : (0 < b * 2 ^ k)%Z)
      by (apply Z.mul_pos_pos; [lia|apply Z.pow_pos_nonneg; lia]).
    destruct (round_ne_spec a (b * 2 ^ k) Hd) as [[H1 H2] Hn].
    specialize (Hn Ha).
    rewrite scaled_eq.
    set (n := round_ne a (b * 2 ^ k)) in *.
    rewrite Zle_Qle in H1, H2, Hn.
    assert (E1 : inject_Z (- (b * 2 ^ k)) == - (inject_Z b * (2 # 1) ^ k)) by qcast.
    assert (E2 : inject_Z (2 * (n * (b * 2 ^ k) - a))
                 == 2 * (inject_Z n * (inject_Z b * (2 # 1) ^ k) - inject_Z a)) by qcast.
    assert (E3 : inject_Z (b * 2 ^ k) == inject_Z b * (2 # 1) ^ k) by qcast.
    rewrite E1, E2 in H1. rewrite E2, E3 in H2. rewrite HX in H1, H2.
    set (N := inject_Z n) in *. set (P := (2 # 1) ^ k) in *. set (B := inject_Z b) in *.
    clearbody X N P B.
    split; [|split].
    + apply Qmult_le_0_compat; [exact Hn|apply Qlt_le_weak, HP].
    + apply (proj1 (Qmult_le_l _ _ B HB)).
      setoid_replace (B * (X - P * (1 # 2))) with (X * B - B * P * (1 # 2)) by field.
      setoid_replace (B * (N * P)) with (N * (B * P)) by ring.
      revert H1 H2. generalize (N * (B * P)). generalize (X * B). generalize (B * P). intros. lra.
    + apply (proj1 (Qmult_le_l _ _ B HB)).
      setoid_replace (B * (X + P * (1 # 2))) with (X * B + B * P * (1 # 2)) by field.
      setoid_replace (B * (N * P)) with (N * (B * P)) by ring.
      revert H1 H2. generalize (N * (B * P)). generalize (X * B). generalize (B * P). intros. lra.
  - assert (Hd : (0 < 2 ^ (- k))%Z) by (apply Z.pow_pos_nonneg; lia).
    destruct (round_ne_spec (a * 2 ^ (- k)) b Hb) as [[H1 H2] Hn].
    specialize (Hn ltac:(nia)).
    rewrite scaled_eq.
    set (n := round_ne (a * 2 ^ (- k)) b) in *.
    rewrite Zle_Qle in H1, H2, Hn.
    assert (E1 : inject_Z (- b) == - inject_Z b) by qcast.
    assert (E2 : inject_Z (2 * (n * b - a * 2 ^ (- k)))
                 == 2 * (inject_Z n * inject_Z b - inject_Z a * (2 # 1) ^ (- k))) by qcast.
    rewrite E1, E2 in H1. rewrite E2 in H2. rewrite HX in H1, H2.
    pose proof (pow2_opp k) as Hpp.
    set (N := inject_Z n) in *. set (P := (2 # 1) ^ k) in *. set (B := inject_Z b) in *.
    set (P' := (2 # 1) ^ (- k)) in *.
    clearbody X N P B P'.
    assert (Hr : 2 * (N * B - X * B * P') * P == 2 * (N * (B * P)) - 2 * (X * B)).
    { transitivity (2 * (N * (B * P)) - 2 * (X * B) * (P * P')); [ring|].
      rewrite Hpp. ring. }
    apply (proj2 (Qmult_le_r _ _ P HP)) in H1, H2. rewrite Hr in H1, H2.
    setoid_replace (- B * P) with (- (B * P)) in H1 by ring.
    split; [|split].
    + apply Qmult_le_0_compat; [exact Hn|apply Qlt_le_weak, HP].
    + apply (proj1 (Qmult_le_l _ _ B HB)).
      setoid_replace (B * (X - P * (1 # 2))) with (X * B - B * P * (1 # 2)) by field.
      setoid_replace (B * (N * P)) with (N * (B * P)) by ring.
      revert H1 H2. generalize (N * (B * P)). generalize (X * B). generalize (B * P). intros. lra.
    + apply (proj1 (Qmult_le_l _ _ B HB)).
      setoid_replace (B * (X + P * (1 # 2))) with (X * B + B * P * (1 # 2)) by field.
      setoid_replace (B * (N * P)) with (N * (B * P)) by ring.
      revert H1 H2. generalize (N * (B * P)). generalize (X * B). generalize (B * P). intros. lra.
Qed.

Lemma exponent_spec (a b : Z) : (0 < a)%Z -> (0 < b)%Z ->
  scaled_le a b (exponent a b) = true.
Proof.
  intros Ha Hb. unfold exponent.
  destruct (scaled_le a b (Z.log2 a - Z.log2 b)) eqn:E; [exact E|].
  pose proof (Z.log2_spec a Ha) as [Ha1 _]. pose proof (Z.log2_spec b Hb) as [_ Hb2].
  set (la := Z.log2 a) in *. set (lb := Z.log2 b) in *.
  unfold scaled_le. destruct (Z.leb_spec 0 (la - lb - 1)) as [H|H]; apply Z.leb_le.
  - assert (Hp : (2 ^ la = 2 ^ Z.succ lb * 2 ^ (la - lb - 1))%Z)
      by (rewrite <- Z.pow_add_r; [f_equal; lia|pose proof (Z.log2_nonneg b); lia|lia]).
    pose proof (Z.pow_pos_nonneg 2 (la - lb - 1) ltac:(lia) H). nia.
  - assert (Hp : (2 ^ Z.succ lb = 2 ^ la * 2 ^ (- (la - lb - 1)))%Z)
      by (rewrite <- Z.pow_add_r; [f_equal; lia|apply Z.log2_nonneg|lia]).
    pose proof (Z.pow_pos_nonneg 2 (- (la - lb - 1)) ltac:(lia) ltac:(lia)). nia.
Qed.

Lemma scaled_le_Q (a b e : Z) : scaled_le a b e = true ->
  inject_Z b * (2 # 1) ^ e <= inject_Z a.
Proof.
  unfold scaled_le. destruct (Z.leb_spec 0 e) as [He|He]; intro H; apply Z.leb_le in H.
  - rewrite <- inject_pow2 by exact He. rewrite <- inject_Z_mult, <- Zle_Qle. exact H.
  - rewrite Zle_Qle, inject_Z_mult, inject_pow2 in H by lia.
    pose proof (pow2_opp e) as Hpp. pose proof (two_pow_pos e) as HP.
    apply (proj2 (Qmult_le_r _ _ _ HP)) in H.
    rewrite <- Qmult_assoc, (Qmult_comm ((2 # 1) ^ (- e))), Hpp, Qmult_1_r in H.
    exact H.
Qed.

Lemma round_pos_error (a b : Z) : (0 < a)%Z -> (0 < b)%Z ->
  let X := inject_Z a / inject_Z b in
  0 <= round_pos a b
  /\ X - (X * (1 # 9007199254740992) + (2 # 1) ^ (-1075)) <= round_pos a b
     <= X + (X * (1 # 9007199254740992) + (2 # 1) ^ (-1075)).
Proof.
  intros Ha Hb X. unfold round_pos.
  set (e := exponent a b).
  set (k := Z.max (e - 52) (-1074)).
  destruct (round_at_error a b k ltac:(lia) Hb) as (H0 & H1 & H2).
  fold X in H1, H2.
  assert (HB : 0 < inject_Z b) by (unfold Qlt; simpl; lia).
  assert (Hx : (2 # 1) ^ e <= X).
  { pose proof (scaled_le_Q a b e (exponent_spec a b Ha Hb)) as Hs.
    unfold X. apply (proj1 (Qmult_le_l _ _ _ HB)).
    setoid_replace (inject_Z b * (inject_Z a / inject_Z b)) with (inject_Z a)
      by (field; apply Qnot_eq_sym, Qlt_not_eq, HB).
    exact Hs. }
  assert (Hx0 : 0 <= X) by (eapply Qle_trans; [apply Qlt_le_weak, two_pow_pos|exact Hx]).
  assert (Heta : 0 < (2 # 1) ^ (-1075)) by apply two_pow_pos.
  assert (Hq : (2 # 1) ^ k * (1 # 2) <= X * (1 # 9007199254740992) + (2 # 1) ^ (-1075)).
  { destruct (Z.leb_spec (-1074) (e - 52)) as [He|He].
    - replace k with (e + -52)%Z by (unfold k; lia).
      rewrite Qpower_plus by discriminate.
      setoid_replace ((2 # 1) ^ e * (2 # 1) ^ (-52) * (1 # 2))
        with ((2 # 1) ^ e * (1 # 9007199254740992))
        by (rewrite <- Qmult_assoc; reflexivity).
      assert ((2 # 1) ^ e * (1 # 9007199254740992) <= X * (1 # 9007199254740992))
        by (apply Qmult_le_compat_r; [exact Hx|discriminate]).
      revert H. generalize ((2 # 1) ^ e * (1 # 9007199254740992)). intros. lra.
    - replace k with (-1074)%Z by (unfold k; lia).
      setoid_replace ((2 # 1) ^ (-1074) * (1 # 2)) with ((2 # 1) ^ (-1075))
        by reflexivity.
      assert (0 <= X * (1 # 9007199254740992))
        by (apply Qmult_le_0_compat; [exact Hx0|discriminate]).
      revert H. generalize (X * (1 # 9007199254740992)). intros. lra. }
  split; [exact H0|].
  revert H1 H2 Hq. generalize (X * (1 # 9007199254740992)).
  generalize ((2 # 1) ^ k * (1 # 2)). intros. split; lra.
Qed.

Lemma round_error (q : Q) : 0 <= q ->
  0 <= round q
  /\ q - (q * (1 # 9007199254740992) + (2 # 1) ^ (-1075)) <= round q
     <= q + (q * (1 # 9007199254740992) + (2 # 1) ^ (-1075)).
Proof.
  destruct q as [a b]. intro Hq. unfold round. cbn [Qnum Qden].
  assert (Heta : 0 < (2 # 1) ^ (-1075)) by apply two_pow_pos.
  destruct (Z.eqb_spec a 0) as [Ha|Ha].
  - subst a. setoid_replace (0 # b) with 0 by reflexivity.
    split; [apply Qle_refl|]. split; lra.
  - assert (Hpos : (0 < a)%Z) by (unfold Qle in Hq; simpl in Hq; lia).
    rewrite (proj2 (Z.ltb_lt 0 a) Hpos).
    destruct (round_pos_error a (Zpos b) Hpos eq_refl) as (H0 & H1 & H2).
    rewrite <- Qmake_Qdiv in H1, H2. split; [exact H0|split; assumption].
Qed.

Lemma eta_small : (2 # 1) ^ (-1075) <= 1 # 1000000000.
Proof. apply Qle_bool_iff. vm_compute. reflexivity. Qed.

Lemma sum3_rounded (r1 r2 r3 : Q) :
  0 <= r1 -> 0 <= r2 -> 0 <= r3 -> r1 + r2 + r3 == 1 ->
  1 - (1 # 1000000) <= round r1 + round r2 + round r3 <= 1 + (1 # 1000000)
  /\ 1 - (1 # 1000000) <= add (add (round r1) (round r2)) (round r3) <= 1 + (1 # 1000000).
Proof.
  intros H1 H2 H3 Hs.
  pose proof eta_small as He. pose proof (two_pow_pos (-1075)) as He0.
  destruct (round_error r1 H1) as (F1 & F1l & F1u).
  destruct (round_error r2 H2) as (F2 & F2l & F2u).
  destruct (round_error r3 H3) as (F3 & F3l & F3u).
  unfold add.
  assert (G0 : 0 <= round r1 + round r2) by lra.
  destruct (round_error _ G0) as (G & Gl & Gu).
  assert (K0 : 0 <= round (round r1 + round r2) + round r3) by lra.
  destruct (round_error _ K0) as (_ & Kl & Ku).
  revert He He0 F1 F1l F1u F2 F2l F2u F3 F3l F3u G Gl Gu Kl Ku.
  generalize (round (round (round r1 + round r2) + round r3)).
  generalize (round (round r1 + round r2)).
  generalize (round r1). generalize (round r2). generalize (round r3).
  generalize ((2 # 1) ^ (-1075)).
  intros. split; split; lra.
Qed.

End FloatProofs.

(** ** Sentiment rollups (C2, C7) *)

Section Rollups.
Import Engine.
Local Open Scope Q_scope.

Lemma count_label_sum (score_label : jsstr -> label) (ms : list message) :
  (count_label score_label Positive ms + count_label score_label Neutral ms
   + count_label score_label Negative ms = List.length ms)%nat.
Proof.
  unfold count_label. induction ms as [|m ms IH]; simpl; [reflexivity|].
  destruct (score_label (msg_text m)); simpl; lia.
Qed.

Lemma quotient_sum_one (a b c t : nat) :
  (t <> 0)%nat -> (a + b + c = t)%nat ->
  inject_Z (Z.of_nat a) / inject_Z (Z.of_nat t) + inject_Z (Z.of_nat b) / inject_Z (Z.of_nat t)
  + inject_Z (Z.of_nat c) / inject_Z (Z.of_nat t) == 1.
Proof.
  intros Ht Hsum. subst t.
  rewrite !Nat2Z.inj_add, !inject_Z_plus.
  assert (Hnz : ~ inject_Z (Z.of_nat a) + inject_Z (Z.of_nat b)
                  + inject_Z (Z.of_nat c) == 0).
  { rewrite <- !inject_Z_plus, <- !Nat2Z.inj_add.
    unfold Qeq; simpl. lia. }
  field. exact Hnz.
Qed.

Lemma quotient_nonneg (a t : nat) : 0 <= inject_Z (Z.of_nat a) / inject_Z (Z.of_nat t).
Proof.
  unfold Qdiv. apply Qmult_le_0_compat; [|apply Qinv_le_0_compat];
    unfold Qle; simpl; lia.
Qed.

Lemma ratios_of_empty (score_label : jsstr -> label) :
  ratios_of score_label [] = {| positiveRatio := 0; neutralRatio := 0; negativeRatio := 0 |}.
Proof. reflexivity. Qed.

Lemma dashboard_percentage_zero_total (dist : list (jsstr * Q)) :
  Dashboard.total dist == 0 -> Forall (fun row => snd row = 0) (Dashboard.rows dist).
Proof.
  intro Ht. unfold Dashboard.rows. apply Forall_map, Forall_forall.
  intros kv _. simpl. unfold Dashboard.percentage.
  assert (Hle : Qle_bool (Dashboard.total dist) 0 = true)
    by (apply Qle_bool_iff; rewrite Ht; apply Qle_refl).
  rewrite Hle. reflexivity.
Qed.

End Rollups.

(** C7: a rollup whose denominator is 0 reports only zero ratios: the
    percentages of the dashboard sentiment distribution (web DashboardStats,
    mobile DashboardScreen) are all 0 when the counts total 0; and, in the
    engine modelled from the spec, the per-participant and overall ratios are
    all 0 when there is no scored message, the overall case noting
    ["no_scored_messages"]. *)
Theorem sentiment_rollup_zero_denominator (dist : list (jsstr * Q))
  (score_label : jsstr -> Engine.label) (msgs : list Engine.message) (p : jsstr) :
  (Dashboard.total dist == 0 ->
   Forall (fun row => snd row = 0%Q) (Dashboard.rows dist))
  /\ (Engine.scored_of msgs p = [] ->
      Engine.participant_sentiment score_label msgs p
      = {| Engine.positiveRatio := 0; Engine.neutralRatio := 0;
           Engine.negativeRatio := 0 |})
  /\ (Engine.scored msgs = [] ->
      Engine.overall_sentiment score_label msgs
      = {| Engine.positiveRatio := 0; Engine.neutralRatio := 0;
           Engine.negativeRatio := 0 |}
      /\ Engine.rollup_diagnostics msgs = [js "no_scored_messages"]).
Proof.
  split; [apply dashboard_percentage_zero_total|]. split.
  - intro H. unfold Engine.participant_sentiment. rewrite H. reflexivity.
  - intro H. unfold Engine.overall_sentiment, Engine.rollup_diagnostics.
    rewrite H. split; reflexivity.
Qed.

Lemma sentiment_rollup_zero_denominator_witness :
  Dashboard.total [(js "positive", 0%Q); (js "neutral", 0%Q)] == 0
  /\ Forall (fun row => snd row = 0%Q)
       (Dashboard.rows [(js "positive", 0%Q); (js "neutral", 0%Q)])
  /\ Engine.overall_sentiment (fun _ => Engine.Positive)
       [{| Engine.msg_timestamp := None; Engine.msg_sender := js "Alice";
           Engine.msg_text := js "<Media omitted>"; Engine.msg_is_media := true |}]
     = {| Engine.positiveRatio := 0; Engine.neutralRatio := 0;
          Engine.negativeRatio := 0 |}.
Proof.
  assert (Ht : Dashboard.total [(js "positive", 0%Q); (js "neutral", 0%Q)] == 0)
    by reflexivity.
  destruct (sentiment_rollup_zero_denominator
              [(js "positive", 0%Q); (js "neutral", 0%Q)]
              (fun _ => Engine.Positive)
              [{| Engine.msg_timestamp := None; Engine.msg_sender := js "Alice";
                  Engine.msg_text := js "<Media omitted>"; Engine.msg_is_media := true |}]
              (js "Alice")) as (H1 & _ & H3).
  split; [exact Ht|]. split; [exact (H1 Ht)|].
  apply (H3 eq_refl).
Defined.

(** C2 (engine modelled from the spec): for a participant with at least one
    non-media message, the three sentiment ratios, each the count over the
    participant's total rounded to a double, sum to within [1e-6] of 1,
    whether the sum is taken exactly or in double arithmetic. *)
Theorem participant_ratios_sum_to_one (score_label : jsstr -> Engine.label)
  (msgs : list Engine.message) (p : jsstr)
  (Hscored : exists m, In m msgs /\ Engine.msg_sender m = p
                       /\ Engine.msg_is_media m = false) :
  let s := Engine.participant_sentiment score_label msgs p in
  (1 - (1 # 1000000) <= Engine.positiveRatio s + Engine.neutralRatio s
                        + Engine.negativeRatio s <= 1 + (1 # 1000000))%Q
  /\ (1 - (1 # 1000000)
      <= Binary64.add (Binary64.add (Engine.positiveRatio s) (Engine.neutralRatio s))
           (Engine.negativeRatio s)
      <= 1 + (1 # 1000000))%Q.
Proof.
  intro s. unfold s, Engine.participant_sentiment, Engine.ratios_of.
  cbn [Engine.positiveRatio Engine.neutralRatio Engine.negativeRatio].
  assert (Ht : List.length (Engine.scored_of msgs p) <> 0%nat).
  { destruct Hscored as (m & Hin & Hs & Hm).
    assert (Hm' : In m (Engine.scored_of msgs p)).
    { unfold Engine.scored_of, Engine.scored. apply filter_In. split.
      - apply filter_In. rewrite Hm. auto.
      - apply jsstr_eqb_eq. exact Hs. }
    destruct (Engine.scored_of msgs p); [contradiction | discriminate]. }
  unfold Engine.ratio. rewrite (proj2 (Nat.eqb_neq _ _) Ht). unfold Binary64.div.
  apply sum3_rounded; try apply quotient_nonneg.
  apply quotient_sum_one; [exact Ht|apply count_label_sum].
Qed.

Lemma participant_ratios_sum_to_one_witness :
  let s := Engine.participant_sentiment
             (fun t => if Api.jsstr_eqb t (js "ok") then Engine.Neutral else Engine.Positive)
             sample_chat (js "Alice") in
  (1 - (1 # 1000000) <= Engine.positiveRatio s + Engine.neutralRatio s
                        + Engine.negativeRatio s <= 1 + (1 # 1000000))%Q
  /\ (1 - (1 # 1000000)
      <= Binary64.add (Binary64.add (Engine.positiveRatio s) (Engine.neutralRatio s))
           (Engine.negativeRatio s)
      <= 1 + (1 # 1000000))%Q.
Proof.
  apply participant_ratios_sum_to_one.
  eexists. split; [left; reflexivity | split; reflexivity].
Defined.

(** ** C1 *)

Section Health.
Import Engine.

Lemma existsb_high_iff (rf : list finding) :
  existsb (fun f => is_high (f_severity f)) rf = true
  <-> Exists (fun f => f_severity f = High) rf.
Proof.
  rewrite existsb_exists, Exists_exists. split.
  - intros (f & Hf & Hh). exists f. split; [exact Hf|].
    destruct (f_severity f); [discriminate | discriminate | reflexivity].
  - intros (f & Hf & Hh). exists f. rewrite Hh. auto.
Qed.

Lemma derive_health_spec (rf ws : list finding) :
  let c := (2 <= List.length rf)%nat \/ Exists (fun f => f_severity f = High) rf in
  let m := rf <> [] \/ (2 <= List.length ws)%nat in
  (derive_health rf ws = Concerning <-> c)
  /\ (derive_health rf ws = Moderate <-> ~ c /\ m)
  /\ (derive_health rf ws = Healthy <-> ~ c /\ ~ m).
Proof.
  intros c m. unfold derive_health, c, m. clear c m.
  rewrite <- existsb_high_iff.
  destruct (existsb _ rf) eqn:Eh; rewrite ?orb_true_r, ?orb_false_r;
  destruct (Nat.leb_spec 2 (List.length rf)) as [H2|H2];
  destruct (Nat.leb_spec 2 (List.length ws)) as [Hw|Hw];
  destruct rf as [|f rf']; simpl in *;
  intuition (try discriminate; try congruence; try lia).
Qed.

End Health.

(** C1 (Red-Flag Detector modelled from the spec): the report's totals are
    the lengths of its lists, and [overall_health] is [Concerning] iff there
    are at least two red flags or a red flag of severity [High]; otherwise
    [Moderate] iff there is a red flag or at least two warnings; otherwise
    [Healthy]. *)
Theorem overall_health_derived (i : Engine.detector_input) :
  let r := Engine.detect_red_flags i in
  Engine.total_red_flags r = List.length (Engine.red_flags r)
  /\ Engine.total_warnings r = List.length (Engine.warnings r)
  /\ (Engine.overall_health r = Engine.Concerning <-> concerning_cond r)
  /\ (Engine.overall_health r = Engine.Moderate
      <-> ~ concerning_cond r /\ moderate_cond r)
  /\ (Engine.overall_health r = Engine.Healthy
      <-> ~ concerning_cond r /\ ~ moderate_cond r).
Proof.
  intro r. unfold concerning_cond, moderate_cond.
  destruct (derive_health_spec (Engine.red_flag_rules i) (Engine.warning_rules i))
    as (Hc & Hm & Hh).
  split; [reflexivity|]. split; [reflexivity|].
  exact (conj Hc (conj Hm Hh)).
Qed.

(** ** C3 *)

(** C3 (Sentiment Scorer modelled from the spec): for every text whose
    normalised form is a filler word and which has no emoji,
    [AnalyzeMessage] returns [neutral] with confidence 0.55 and no emotion
    map, whatever the classifier returns and whatever the later phases do. *)
Theorem analyze_message_filler (is_emoji : Z -> bool) (fillers : list jsstr)
  (later_phases : bool -> jsstr -> option Engine.classifier_hint -> Engine.sentiment_result)
  (classify : jsstr -> option Engine.classifier_hint) (text : jsstr)
  (Hfill : In (Engine.normalise text) fillers)
  (Hnoemo : Engine.has_emoji is_emoji text = false) :
  let r := Engine.analyze_message is_emoji fillers later_phases classify text in
  Engine.sr_label r = Engine.Neutral
  /\ Engine.sr_confidence r = (11 # 20)%Q
  /\ Engine.sr_emotions r = None.
Proof.
  unfold Engine.analyze_message, Engine.score.
  assert (Hex : existsb (Api.jsstr_eqb (Engine.normalise text)) fillers = true).
  { apply existsb_exists. exists (Engine.normalise text).
    split; [exact Hfill | apply jsstr_eqb_eq; reflexivity]. }
  rewrite Hex, Hnoemo. simpl. auto.
Qed.

Lemma analyze_message_filler_witness :
  let r := Engine.analyze_message Engine.is_emoji_cp Engine.filler_words
             sample_later_phases sample_classifier (js "ok") in
  Engine.sr_label r = Engine.Neutral
  /\ Engine.sr_confidence r = (11 # 20)%Q
  /\ Engine.sr_emotions r = None.
Proof.
  apply analyze_message_filler.
  - vm_compute. left. reflexivity.
  - vm_compute. reflexivity.
Defined.

(** ** C8 *)

Lemma self_roles_at_most_one (s : option jsstr) (l : list jsstr) :
  NoDup (map Engine.normalise l) ->
  (List.length (filter (fun nr => Engine.is_self (snd nr))
                 (map (fun n => (n, Engine.role_of s n)) l)) <= 1)%nat.
Proof.
  destruct s as [s|].
  2:{ intros _. induction l as [|n l IH]; simpl; auto. }
  induction l as [|n l IH]; simpl; intro Hnd; [lia|].
  inversion Hnd as [|x y Hnin Hnd' Heq]; subst.
  destruct (Api.jsstr_eqb (Engine.normalise s) (Engine.normalise n)) eqn:E; simpl.
  - apply jsstr_eqb_eq in E.
    destruct (filter _ (map _ l)) as [|[n' r'] rest] eqn:F; simpl; [lia|].
    exfalso.
    assert (Hin : In (n', r') (filter (fun nr => Engine.is_self (snd nr))
                                  (map (fun n => (n, Engine.role_of (Some s) n)) l)))
      by (rewrite F; left; reflexivity).
    apply filter_In in Hin as [Hin Hself].
    apply in_map_iff in Hin as (n'' & Heq' & Hn'').
    injection Heq' as Hn Hr. subst n' r'.
    simpl in Hself. unfold Engine.role_of in Hself.
    destruct (Api.jsstr_eqb (Engine.normalise s) (Engine.normalise n'')) eqn:E';
      [|discriminate].
    apply jsstr_eqb_eq in E'. apply Hnin. rewrite <- E, E'.
    apply in_map. exact Hn''.
  - apply IH. exact Hnd'.
Qed.

(** C8 (as amended; roles modelled from the spec): every participant is
    listed once, with role [Self] or [Other]; the role is [Self] iff a
    [selfName] is given and matches the name case-insensitively after
    trimming; and at most one participant is [Self] when no two participant
    names coincide case-insensitively after trimming. *)
Theorem assign_roles_spec (selfName : option jsstr) (msgs : list Engine.message) :
  NoDup (map fst (Engine.assign_roles selfName msgs))
  /\ (forall n r, In (n, r) (Engine.assign_roles selfName msgs) ->
      In n (map Engine.msg_sender msgs)
      /\ (r = Engine.Self <->
          exists s, selfName = Some s /\ Engine.normalise s = Engine.normalise n))
  /\ (NoDup (map Engine.normalise (Engine.participants msgs)) ->
      (List.length (filter (fun nr => Engine.is_self (snd nr))
                     (Engine.assign_roles selfName msgs)) <= 1)%nat).
Proof.
  unfold Engine.assign_roles. split; [|split].
  - rewrite map_map. simpl. rewrite map_id. apply NoDup_nodup.
  - intros n r Hin. apply in_map_iff in Hin as (n' & Heq & Hn').
    injection Heq as <- <-.
    split; [apply nodup_In in Hn'; exact Hn'|].
    unfold Engine.role_of. destruct selfName as [s|].
    + destruct (Api.jsstr_eqb (Engine.normalise s) (Engine.normalise n')) eqn:E.
      * apply jsstr_eqb_eq in E. split; [intros _; eauto | reflexivity].
      * split; [discriminate|]. intros (s' & Hs & Heq). injection Hs as <-.
        apply jsstr_eqb_eq in Heq. congruence.
    + split; [discriminate | intros (s' & Hs & _); discriminate].
  - apply self_roles_at_most_one.
Qed.

Lemma assign_roles_spec_witness :
  (List.length (filter (fun nr => Engine.is_self (snd nr))
                 (Engine.assign_roles (Some (js " ALICE ")) (firstn 2 sample_chat))) <= 1)%nat.
Proof.
  destruct (assign_roles_spec (Some (js " ALICE ")) (firstn 2 sample_chat)) as (_ & _ & H).
  apply H. vm_compute.
  repeat constructor; simpl; intuition discriminate.
Defined.

(** C8 counterexample: in a chat whose senders include both "Alice" and
    "alice", the rule "self iff the name matches selfName case-insensitively"
    gives two [Self] participants for selfName "alice". *)
Lemma assign_roles_counterexample :
  Engine.assign_roles (Some (js "alice")) sample_chat
  = [(js "Alice", Engine.Self); (js "Bob", Engine.Other); (js "alice", Engine.Self)]
  /\ List.length (filter (fun nr => Engine.is_self (snd nr))
                   (Engine.assign_roles (Some (js "alice")) sample_chat)) = 2%nat.
Proof. vm_compute. split; reflexivity. Qed.

(** Witnesses of the request-side theorems. *)

Lemma import_short_content_rejected_witness :
  ChatImportForm.is_rejected
    (ChatImportForm.mobile_handleImport (js " hello ") (js "whatsapp") []) = true.
Proof.
  apply (proj1 (import_short_content_rejected (js " hello ") (js "whatsapp") [])).
  vm_compute. lia.
Defined.

Lemma api_error_message_from_detail_witness :
  snd (Api.web_request (detail_response 400 (js "Invalid input")))
  = Api.Thrown (Api.http_prefix (detail_response 400 (js "Invalid input"))
                ++ js ": " ++ js "Invalid input").
Proof.
  apply (api_error_message_from_detail (detail_response 400 (js "Invalid input"))
           [(js "detail", Api.JStr (js "Invalid input"))] (js "Invalid input")).
  - split; [vm_compute; reflexivity|]. split; [|reflexivity].
    exists (js "application/json"). vm_compute. repeat split.
  - vm_compute. reflexivity.
  - vm_compute. discriminate.
Defined.

Lemma addAnalysis_history_invariants_witness :
  (List.length (AnalysisContext.run_adds []) <= 100)%nat.
Proof. apply (addAnalysis_history_invariants [] {| AnalysisContext.now_ms := 0; AnalysisContext.now_iso := [] |} [] {| AnalysisContext.r_analysis_id := None; AnalysisContext.r_sentiment := Api.JUndef; AnalysisContext.r_confidence := Api.JUndef; AnalysisContext.r_emotions := Api.JUndef; AnalysisContext.r_emoji_analysis := Api.JUndef; AnalysisContext.r_timestamp := None |}). Defined.

(** * Extra properties of the code *)

(** ** trim is idempotent *)

Lemma trim_start_decomp (s : jsstr) :
  exists w, s = w ++ trim_start s /\ forallb is_js_ws w = true.
Proof.
  induction s as [|c r (w & Hw & Hf)]; simpl.
  - exists []. auto.
  - destruct (is_js_ws c) eqn:E.
    + exists (c :: w). simpl. rewrite E, Hf. rewrite <- Hw. auto.
    + exists []. auto.
Qed.

Lemma trim_start_idem (s : jsstr) : trim_start (trim_start s) = trim_start s.
Proof.
  destruct (trim_start_shape s) as [H|(c & r & H & Hc)]; rewrite H; simpl; auto.
  rewrite Hc. reflexivity.
Qed.

Lemma trim_end_decomp (s : jsstr) :
  exists w, s = trim_end s ++ w /\ forallb is_js_ws w = true.
Proof.
  destruct (trim_start_decomp (rev s)) as (w & Hw & Hf).
  exists (rev w). unfold trim_end. split.
  - rewrite <- (rev_involutive s) at 1. rewrite Hw at 1. rewrite rev_app_distr. reflexivity.
  - rewrite forallb_rev_eq. exact Hf.
Qed.

Lemma trim_end_idem (s : jsstr) : trim_end (trim_end s) = trim_end s.
Proof. unfold trim_end. rewrite rev_involutive, trim_start_idem. reflexivity. Qed.

Lemma trim_start_trim_end (s : jsstr) :
  trim_start (trim_end (trim_start s)) = trim_end (trim_start s).
Proof.
  destruct (trim_end_decomp (trim_start s)) as (w & Hw & _).
  destruct (trim_start_shape s) as [H|(c & r & H & Hc)].
  - rewrite H. reflexivity.
  - rewrite H in Hw |- *. destruct (trim_end (c :: r)) as [|d t] eqn:E; [reflexivity|].
    simpl in Hw. injection Hw as -> _. simpl. rewrite Hc. reflexivity.
Qed.

Lemma trim_idem (s : jsstr) : trim (trim s) = trim s.
Proof.
  unfold trim at 1 2. unfold trim. rewrite trim_start_trim_end, trim_end_idem. reflexivity.
Qed.

Lemma trim_infix (s : jsstr) : exists a b, s = a ++ trim s ++ b.
Proof.
  destruct (trim_start_decomp s) as (a & Ha & _).
  destruct (trim_end_decomp (trim_start s)) as (b & Hb & _).
  exists a, b. unfold trim. rewrite <- Hb. exact Ha.
Qed.

Lemma In_trim (c : Z) (s : jsstr) : In c (trim s) -> In c s.
Proof.
  intro H. destruct (trim_infix s) as (a & b & E). rewrite E.
  apply in_or_app. right. apply in_or_app. left. exact H.
Qed.

Lemma filter_forallb_id (f : Z -> bool) (s : jsstr) :
  forallb f s = true -> filter f s = s.
Proof.
  induction s as [|c r IH]; simpl; auto.
  intro H. apply andb_prop in H as [H1 H2]. rewrite H1, IH; auto.
Qed.

Lemma forallb_trim (f : Z -> bool) (s : jsstr) :
  forallb f s = true -> forallb f (trim s) = true.
Proof.
  intro H. apply forallb_forall. intros c Hc. apply In_trim in Hc.
  rewrite forallb_forall in H. auto.
Qed.

(** ** helpers.js *)

Section HelpersProofs.
Import Helpers.

(** X2: the output of [sanitizeText] contains no [<] and no [>], has no
    surrounding whitespace, and sanitizing it again changes nothing. *)
Lemma sanitizeText_props (text : jsstr) :
  ~ In 60 (sanitizeText text) /\ ~ In 62 (sanitizeText text)
  /\ trim (sanitizeText text) = sanitizeText text
  /\ sanitizeText (sanitizeText text) = sanitizeText text.
Proof.
  set (f := fun c => negb ((c =? 60) || (c =? 62))).
  assert (Hall : forallb f (filter f text) = true).
  { apply forallb_forall. intros c Hc. apply filter_In in Hc. apply Hc. }
  assert (Hs : forallb f (sanitizeText text) = true) by (apply forallb_trim; exact Hall).
  rewrite forallb_forall in Hs.
  split; [|split; [|split]].
  - intro H. specialize (Hs _ H). discriminate.
  - intro H. specialize (Hs _ H). discriminate.
  - apply trim_idem.
  - unfold sanitizeText at 1. fold f. rewrite filter_forallb_id.
    + apply trim_idem.
    + apply forallb_forall. exact Hs.
Qed.

Lemma trim_nil_or_ends (s : jsstr) :
  trim s = [] \/ exists c r, trim s = c :: r /\ is_js_ws c = false.
Proof.
  unfold trim. rewrite <- trim_start_trim_end. apply trim_start_shape.
Qed.

End HelpersProofs.

Section HelpersProofs2.
Import Helpers.

(** X3: [truncateText] returns a text no longer than [maxLength] unchanged;
    a longer one becomes a trimmed infix of its first [maxLength] units
    followed by [...], so the result has at most [maxLength + 3] units. *)
Lemma truncateText_bounds (text : jsstr) (maxLength : Z) (Hm : 0 <= maxLength) :
  (Z.of_nat (List.length text) <= maxLength -> truncateText text maxLength = text)
  /\ (maxLength < Z.of_nat (List.length text) ->
      exists p a b, truncateText text maxLength = p ++ js "..."
        /\ firstn (Z.to_nat maxLength) text = a ++ p ++ b
        /\ trim p = p)
  /\ Z.of_nat (List.length (truncateText text maxLength)) <= maxLength + 3.
Proof.
  unfold truncateText.
  destruct (Z.leb_spec (Z.of_nat (List.length text)) maxLength) as [Hle|Hgt].
  - split; [auto|split; [lia|lia]].
  - split; [lia|split].
    + intros _. destruct (trim_infix (substring0 text maxLength)) as (a & b & E).
      exists (trim (substring0 text maxLength)), a, b.
      split; [reflexivity|split; [exact E|apply trim_idem]].
    + rewrite length_app. change (List.length (js "...")) with 3%nat.
      pose proof (trim_length (substring0 text maxLength)).
      unfold substring0 in *. rewrite length_firstn in H. lia.
Qed.

Lemma match_plus_spec (p : Z -> bool) (s : jsstr) (k : jsstr -> bool) :
  match_plus p s k = true <->
  exists u v, s = u ++ v /\ u <> [] /\ forallb p u = true /\ k v = true.
Proof.
  revert k. induction s as [|c s IH]; intro k; simpl.
  - split; [discriminate|]. intros (u & v & E & Hu & _).
    destruct u; [congruence|discriminate].
  - rewrite andb_true_iff, orb_true_iff, IH. split.
    + intros [Hc [(u & v & E & Hu & Hf & Hk)|Hk]].
      * exists (c :: u), v. subst s. simpl. rewrite Hc, Hf. repeat split; auto; discriminate.
      * exists [c], s. simpl. rewrite Hc. repeat split; auto; discriminate.
    + intros ([|c' u] & v & E & Hu & Hf & Hk); [congruence|].
      simpl in E, Hf. injection E as <- Es. apply andb_prop in Hf as [Hc Hf].
      split; [exact Hc|]. destruct u as [|c'' u].
      * right. simpl in Es. subst. exact Hk.
      * left. exists (c'' :: u), v. repeat split; auto; discriminate.
Qed.

Lemma match_re_spec (r : regex) (s : jsstr) (k : jsstr -> bool) :
  match_re r s k = true <->
  exists u v, s = u ++ v /\ regex_lang r u /\ k v = true.
Proof.
  revert s k. induction r as [p|p|r1 IH1 r2 IH2]; intros s k; simpl.
  - destruct s as [|c s].
    + split; [discriminate|]. intros (u & v & E & (c & -> & _) & _). discriminate.
    + rewrite andb_true_iff. split.
      * intros [Hc Hk]. exists [c], s. eauto.
      * intros (u & v & E & (c' & -> & Hc) & Hk). injection E as -> ->. auto.
  - rewrite match_plus_spec. split.
    + intros (u & v & E & Hu & Hf & Hk). exists u, v. auto.
    + intros (u & v & E & [Hu Hf] & Hk). exists u, v. auto.
  - rewrite IH1. split.
    + intros (u1 & v1 & E1 & H1 & H2). apply IH2 in H2 as (u2 & v & E2 & H2 & Hk).
      exists (u1 ++ u2), v. subst. rewrite app_assoc. split; [reflexivity|].
      split; [exists u1, u2; auto|exact Hk].
    + intros (u & v & E & (u1 & u2 & -> & H1 & H2) & Hk).
      exists u1, (u2 ++ v). rewrite <- app_assoc in E. split; [exact E|].
      split; [exact H1|]. apply IH2. exists u2, v. auto.
Qed.

Lemma regex_test_spec (r : regex) (s : jsstr) :
  regex_test r s = true <-> regex_lang r s.
Proof.
  unfold regex_test. rewrite match_re_spec. split.
  - intros (u & [|c v] & E & H & Hk); [|discriminate]. rewrite app_nil_r in E. subst. exact H.
  - intro H. exists s, []. rewrite app_nil_r. auto.
Qed.

(** X1: [validateEmail] accepts exactly the strings [local@domain.tld] with
    nonempty parts free of whitespace and of [@] (the domain may contain
    further dots). *)
Lemma validateEmail_iff (email : jsstr) :
  validateEmail email = true <->
  exists local domain tld,
    email = local ++ [64] ++ domain ++ [46] ++ tld
    /\ local <> [] /\ domain <> [] /\ tld <> []
    /\ (forall c, In c (local ++ domain ++ tld) -> is_js_ws c = false /\ c <> 64).
Proof.
  unfold validateEmail. rewrite regex_test_spec. simpl.
  assert (Hok : forall u, forallb not_ws_at u = true <->
                (forall c, In c u -> is_js_ws c = false /\ c <> 64)).
  { intro u. rewrite forallb_forall. unfold not_ws_at.
    split; intros H c Hc; specialize (H c Hc).
    - apply andb_prop in H as [H1 H2]. apply negb_true_iff in H1, H2.
      apply Z.eqb_neq in H2. auto.
    - destruct H as [H1 H2]. rewrite H1. apply Z.eqb_neq in H2. rewrite H2. reflexivity. }
  split.
  - intros (a & u2 & -> & [Ha Hfa] & u3 & u4 & -> & (c1 & -> & E1)
            & u5 & u6 & -> & [Hb Hfb] & u7 & c & -> & (c2 & -> & E2) & [Hc Hfc]).
    apply Z.eqb_eq in E1, E2. subst c1 c2.
    exists a, u5, c. split; [reflexivity|]. split; [exact Ha|split; [exact Hb|split; [exact Hc|]]].
    apply Hok. rewrite !forallb_app, Hfa, Hfb, Hfc. reflexivity.
  - intros (a & b & c & -> & Ha & Hb & Hc & Hall).
    apply Hok in Hall. rewrite !forallb_app in Hall.
    apply andb_prop in Hall as [Hfa Hall]. apply andb_prop in Hall as [Hfb Hfc].
    exists a, ([64] ++ b ++ [46] ++ c). split; [reflexivity|]. split; [auto|].
    exists [64], (b ++ [46] ++ c). split; [reflexivity|]. split; [exists 64; auto|].
    exists b, ([46] ++ c). split; [reflexivity|]. split; [auto|].
    exists [46], c. split; [reflexivity|]. split; [exists 46; auto|]. auto.
Qed.

Lemma floor_div_bounds (x d : Z) : 0 < d -> d * (x / d) <= x < d * (x / d) + d.
Proof.
  intro Hd. pose proof (Z.div_mod x d ltac:(lia)). pose proof (Z.mod_pos_bound x d Hd). lia.
Qed.

(** X4: [formatTimeAgo] prints [Just now] under a minute, then whole
    minutes (1 to 59), hours (1 to 23) and days (1 to 6), and falls back to
    [formatDate] from a week on and for an invalid date. *)
Lemma formatTimeAgo_buckets {D : Type} (time_value : D -> option Z)
  (formatDate : D -> jsstr) (now : Z) (date : D) :
  let f := formatTimeAgo D time_value formatDate now date in
  match time_value date with
  | None => f = formatDate date
  | Some t =>
      (now - t < 60000 -> f = js "Just now")
      /\ (60000 <= now - t < 3600000 ->
          f = number_to_string ((now - t) / 60000) ++ js " minutes ago"
          /\ 1 <= (now - t) / 60000 <= 59)
      /\ (3600000 <= now - t < 86400000 ->
          f = number_to_string ((now - t) / 3600000) ++ js " hours ago"
          /\ 1 <= (now - t) / 3600000 <= 23)
      /\ (86400000 <= now - t < 604800000 ->
          f = number_to_string ((now - t) / 86400000) ++ js " days ago"
          /\ 1 <= (now - t) / 86400000 <= 6)
      /\ (604800000 <= now - t -> f = formatDate date)
  end.
Proof.
  intro f. subst f. unfold formatTimeAgo.
  destruct (time_value date) as [t|]; [|reflexivity].
  set (ms := now - t). set (d := ms / 1000).
  pose proof (floor_div_bounds ms 1000 ltac:(lia)) as Hd. fold d in Hd.
  assert (E60 : d / 60 = ms / 60000) by (unfold d; rewrite Z.div_div by lia; reflexivity).
  assert (E3600 : d / 3600 = ms / 3600000) by (unfold d; rewrite Z.div_div by lia; reflexivity).
  assert (E86400 : d / 86400 = ms / 86400000) by (unfold d; rewrite Z.div_div by lia; reflexivity).
  pose proof (floor_div_bounds d 60 ltac:(lia)) as H60.
  pose proof (floor_div_bounds d 3600 ltac:(lia)) as H3600.
  pose proof (floor_div_bounds d 86400 ltac:(lia)) as H86400.
  rewrite <- E60, <- E3600, <- E86400.
  repeat split; intros;
    repeat match goal with
    | |- context [?a <? ?b] => destruct (Z.ltb_spec a b)
    end; try lia; try reflexivity.
Qed.

End HelpersProofs2.

Section ApiProofs.
Import Api.

Lemma mobile_catch_shape (m : jsstr) :
  mobile_catch m = js "UNAUTHORIZED"
  \/ starts_with (mobile_catch m) (js "HTTP") = true
  \/ exists e, mobile_catch m = js "Network error: " ++ e.
Proof.
  unfold mobile_catch.
  destruct (jsstr_eqb m (js "UNAUTHORIZED")) eqn:E.
  - left. apply jsstr_eqb_eq. exact E.
  - destruct (starts_with m (js "HTTP")) eqn:F; [right; left; exact F|].
    right; right. eauto.
Qed.

Lemma status_401_not_ok (r : response) : status r = 401 -> is_ok r = false.
Proof. intro H. unfold is_ok. rewrite H. reflexivity. Qed.

Lemma mobile_request_returns_ok (r : response) :
  match mobile_request r with Thrown _ => True | _ => is_ok r = true end.
Proof.
  unfold mobile_request.
  destruct (status r =? 401); [exact I|].
  destruct (_ || _); [destruct (is_ok r); reflexivity|].
  destruct (includes _ _); destruct (body_json r); destruct (is_ok r); simpl;
    first [exact I | reflexivity].
Qed.

Lemma mobile_request_thrown_ok (r : response) (m : jsstr) :
  is_ok r = true -> mobile_request r = Thrown m ->
  m = js "Network error: " ++ json_syntax_error.
Proof.
  intros Hok. unfold mobile_request.
  destruct (Z.eqb_spec (status r) 401) as [E|_].
  { rewrite (status_401_not_ok r E) in Hok. discriminate. }
  rewrite Hok. simpl.
  destruct (_ || _); [discriminate|].
  destruct (includes _ _); destruct (body_json r); simpl; try discriminate.
  intro H. injection H as <-. reflexivity.
Qed.

End ApiProofs.

Section ProviderProofs.
Import Api AnalysisContext AnalysisProvider.

(** X5: after [loadAnalysisHistory] the loading flag is off; a failed
    request keeps the history, returns an empty list and records the thrown
    message as the error, unless it is [UNAUTHORIZED] (always so on a 401),
    which records no error; a successful one stores and returns the history
    or fails with a network error. *)
Lemma loadAnalysisHistory_response (r : response) (st : load_state) :
  let '(st', ret) := loadAnalysisHistory (mobile_request r) st in
  isLoading st' = false
  /\ (is_ok r = false ->
      loaded_history st' = loaded_history st /\ ret = JArr []
      /\ (thrown_message (mobile_request r) = js "UNAUTHORIZED" -> load_error st' = None)
      /\ (thrown_message (mobile_request r) <> js "UNAUTHORIZED" ->
          load_error st' = Some (thrown_message (mobile_request r))))
  /\ (status r = 401 -> load_error st' = None)
  /\ (is_ok r = true ->
      (loaded_history st' = ret /\ load_error st' = None)
      \/ (loaded_history st' = loaded_history st
          /\ load_error st' = Some (js "Network error: " ++ json_syntax_error))).
Proof.
  pose proof (mobile_request_returns_ok r) as Hret.
  pose proof (mobile_request_thrown_ok r) as Hthr.
  assert (H401 : status r = 401 -> mobile_request r = Thrown (js "UNAUTHORIZED")).
  { intro E. unfold mobile_request. rewrite E. reflexivity. }
  destruct (mobile_request r) as [v| |m] eqn:Em; simpl.
  - split; [reflexivity|]. split; [intro H; congruence|].
    split; [intro E; rewrite (status_401_not_ok r E) in Hret; discriminate|].
    intros _. left. auto.
  - split; [reflexivity|]. split; [intro H; congruence|].
    split; [intro E; rewrite (status_401_not_ok r E) in Hret; discriminate|].
    intros _. left. auto.
  - split; [reflexivity|]. split; [|split].
    + intros _. split; [reflexivity|split; [reflexivity|]].
      destruct (jsstr_eqb m (js "UNAUTHORIZED")) eqn:E; simpl.
      * apply jsstr_eqb_eq in E. split; [reflexivity|intro Hn; contradiction].
      * split; [|reflexivity]. intro Hm. apply jsstr_eqb_eq in Hm. congruence.
    + intro E. specialize (H401 E). injection H401 as ->. reflexivity.
    + intro Hok. right. rewrite (Hthr m Hok eq_refl). split; [reflexivity|]. reflexivity.
Qed.

Lemma removeAnalysis_preserves (id : jsstr) (server : delete_result) (st : ctx_state) :
  (List.length (analysisHistory st) <= 100)%nat -> NoDup (map analysis_id (analysisHistory st)) ->
  (List.length (analysisHistory (fst (removeAnalysis id server st))) <= 100)%nat
  /\ NoDup (map analysis_id (analysisHistory (fst (removeAnalysis id server st)))).
Proof.
  intros Hl Hn. destruct server as [u|m]; simpl; [|split; assumption].
  set (f := fun a => negb (Api.jsstr_eqb (analysis_id a) id)).
  split.
  - pose proof (filter_length_le f (analysisHistory st)). lia.
  - clear Hl. induction (analysisHistory st) as [|a h IH]; simpl; [constructor|].
    inversion Hn as [|? ? Hni Hnd]; subst.
    destruct (f a); simpl; [|auto]. constructor; [|auto].
    intro Hin. apply Hni. rewrite in_map_iff in Hin |- *.
    destruct Hin as (x & Hx & Hin). apply filter_In in Hin as [Hin _]. eauto.
Qed.

(** X6: any sequence of [addAnalysis], [removeAnalysis] and [clearHistory]
    from the initial state keeps at most 100 entries with distinct ids. *)
Lemma run_ops_invariants (ops : list history_op) :
  (List.length (analysisHistory (run_ops initial_state ops)) <= 100)%nat
  /\ NoDup (map analysis_id (analysisHistory (run_ops initial_state ops))).
Proof.
  unfold run_ops.
  assert (Hinit : (List.length (analysisHistory initial_state) <= 100)%nat
                  /\ NoDup (map analysis_id (analysisHistory initial_state)))
    by (split; [simpl; lia | constructor]).
  revert Hinit. generalize initial_state.
  induction ops as [|op ops IH]; intros st [Hl Hn]; simpl; [auto|].
  apply IH. destruct op as [[[clk m] res]|id server|]; simpl.
  - apply addAnalysis_preserves; assumption.
  - apply removeAnalysis_preserves; assumption.
  - split; [lia|constructor].
Qed.

(** X7: adding an analysis whose id is new and then removing it with a
    successful server call leaves the first 99 entries of the previous
    history and the previous error. *)
Lemma add_then_remove (clk : clock) (msg : jsstr) (res : analysis_result) (st : ctx_state)
  (Hnew : ~ In (analysis_id (new_entry clk msg res)) (map analysis_id (analysisHistory st))) :
  fst (removeAnalysis (analysis_id (new_entry clk msg res)) (inl tt)
         (apply_op st (OpAdd (clk, msg, res))))
  = {| analysisHistory := firstn 99 (analysisHistory st); error := error st |}.
Proof.
  destruct (addAnalysis_cases clk msg res (analysisHistory st)) as [_ Hadd].
  unfold apply_op, removeAnalysis. cbn [fst analysisHistory error].
  rewrite (Hadd Hnew).
  assert (Hsub : forall x, In x (firstn 99 (analysisHistory st)) -> In x (analysisHistory st)).
  { intros x Hx. rewrite <- (firstn_skipn 99 (analysisHistory st)). apply in_or_app. auto. }
  set (e := new_entry clk msg res) in *.
  clear Hadd. remember (firstn 99 (analysisHistory st)) as l eqn:El. clear El.
  assert (Hself : Api.jsstr_eqb (analysis_id e) (analysis_id e) = true)
    by (apply jsstr_eqb_eq; reflexivity).
  cbn [filter]. rewrite Hself. cbn [negb]. f_equal.
  induction l as [|a h IH]; cbn [filter]; [reflexivity|].
  destruct (Api.jsstr_eqb (analysis_id a) (analysis_id e)) eqn:E.
  - exfalso. apply jsstr_eqb_eq in E. apply Hnew. rewrite <- E.
    apply in_map. apply Hsub. left. reflexivity.
  - cbn [negb]. f_equal. apply IH; intros x Hx; apply Hsub; right; exact Hx.
Qed.

End ProviderProofs.

Section ApiProofs2.
Import Api.

(** X8: the web [request] clears the session exactly on a 401 whose body
    could be read, and any response that is not ok ends in a thrown error. *)
Lemma web_request_session (r : response) :
  (fst (web_request r) = true <->
     status r = 401
     /\ ~ (match content_type r with
           | Some ct => includes ct (js "application/json")
           | None => false
           end = true /\ body_json r = None))
  /\ (is_ok r = false -> exists m, snd (web_request r) = Thrown m).
Proof.
  unfold web_request.
  destruct (match content_type r with Some ct => _ | None => false end) eqn:Ej.
  - destruct (body_json r) as [v|] eqn:Eb; simpl.
    + destruct (is_ok r) eqn:Eok; simpl.
      * split; [|discriminate]. split; [discriminate|].
        intros [E _]. rewrite (status_401_not_ok r E) in Eok. discriminate.
      * destruct v; simpl;
          (split; [rewrite Z.eqb_eq; split; [intro E; split; [exact E|intros [_ H]; discriminate]
                                           |intros [E _]; exact E]
                  |intros _; eexists; reflexivity]).
    + split; [|intros _; eexists; reflexivity].
      split; [discriminate|]. intros [_ H]. exfalso. apply H. auto.
  - destruct (is_ok r) eqn:Eok; simpl.
    + split; [|discriminate]. split; [discriminate|].
      intros [E _]. rewrite (status_401_not_ok r E) in Eok. discriminate.
    + split; [|intros _; eexists; reflexivity].
      rewrite Z.eqb_eq. split.
      * intro E. split; [exact E|intros [H _]; discriminate].
      * intros [E _]. exact E.
Qed.

(** X9: the mobile [request] throws only [UNAUTHORIZED], a message starting
    with [HTTP] or one starting with [Network error: ], and returns only
    for an ok status. *)
Lemma mobile_request_outcomes (r : response) :
  match mobile_request r with
  | Thrown m =>
      m = js "UNAUTHORIZED" \/ starts_with m (js "HTTP") = true
      \/ exists e, m = js "Network error: " ++ e
  | Returned _ | ReturnedRaw => is_ok r = true
  end.
Proof.
  pose proof (mobile_request_returns_ok r) as Hret.
  destruct (mobile_request r) as [v| |m] eqn:E; try exact Hret.
  unfold mobile_request in E.
  destruct (status r =? 401).
  { injection E as <-. apply mobile_catch_shape. }
  destruct (_ || _).
  { destruct (negb (is_ok r)); [injection E as <-; apply mobile_catch_shape|discriminate]. }
  destruct (includes _ _); destruct (body_json r); simpl in E;
    try (injection E as <-; apply mobile_catch_shape);
    destruct (negb (is_ok r)); try discriminate; injection E as <-; apply mobile_catch_shape.
Qed.

(** X10: an ok mobile response that is not declared JSON is returned raw
    (PDF or binary) or as its parsed body, or wrapped as [{message: text}]. *)
Lemma mobile_request_ok_not_json (r : response)
  (Hok : is_ok r = true)
  (Hct : includes (match content_type r with Some c => c | None => [] end)
           (js "application/json") = false) :
  mobile_request r = ReturnedRaw
  \/ mobile_request r =
       Returned (match body_json r with
                 | Some v => v
                 | None => JObj [(js "message", JStr (body_text r))]
                 end).
Proof.
  unfold mobile_request.
  destruct (Z.eqb_spec (status r) 401) as [E|_].
  { rewrite (status_401_not_ok r E) in Hok. discriminate. }
  destruct (_ || _); [rewrite Hok; left; reflexivity|].
  rewrite Hct, Hok. right. destruct (body_json r); reflexivity.
Qed.

End ApiProofs2.

Section ScreenProofs.
Import AnalyzeScreen.

(** X12: the crisis alert of [handleAnalyze] is raised exactly when
    [RiskIndicator] shows a high risk. *)
Lemma crisis_alert_iff_high_risk (toLowerCase : jsstr -> jsstr)
  (sentiment : option jsstr) (confidence : option Q) :
  crisis_alert toLowerCase sentiment confidence = true
  <-> RiskIndicator toLowerCase sentiment confidence = RiskHigh.
Proof.
  unfold crisis_alert, RiskIndicator.
  destruct (is_negative toLowerCase sentiment); simpl.
  - destruct confidence as [c|]; simpl.
    + destruct (Qgt_bool c (7 # 10)); [split; reflexivity|].
      destruct (Qgt_bool c (5 # 10)); split; discriminate.
    + split; discriminate.
  - split; discriminate.
Qed.

(** X13: the message [handleAnalyze] sends is the trimmed input, nonempty,
    with no surrounding whitespace and at most 5000 units. *)
Lemma analyze_request_sent (message t : jsstr) (H : analyze_request message = inr t) :
  t = trim message /\ trim t = t /\ t <> [] /\ (List.length t <= 5000)%nat.
Proof.
  unfold analyze_request in H.
  destruct (trim message) as [|c r] eqn:E; simpl in H; [discriminate|].
  destruct (Nat.ltb_spec 5000 (S (List.length r))) as [Hl|Hl]; [discriminate|].
  injection H as <-. rewrite <- E. split; [reflexivity|split; [apply trim_idem|]].
  rewrite E. split; [discriminate|exact Hl].
Qed.

End ScreenProofs.

Section ErrorAlertProofs.
Import ErrorAlert.

(** X14: [ErrorAlert] titles an [HTTP 422], [401], [400] or [500] error
    string by the first of these codes it contains. *)
Lemma errorAlert_http_titles (json_parse : jsstr -> option Api.jsval)
  (toLowerCase : jsstr -> jsstr) (d : jsstr) :
  title (getErrorMessage json_parse toLowerCase (js "HTTP 422: " ++ d))
    = js "Input Validation Error"
  /\ (includes d (js "422") = false ->
      title (getErrorMessage json_parse toLowerCase (js "HTTP 401: " ++ d))
        = js "Authentication Failed")
  /\ (includes d (js "422") = false -> includes d (js "401") = false ->
      title (getErrorMessage json_parse toLowerCase (js "HTTP 400: " ++ d))
        = js "Invalid Request")
  /\ (includes d (js "422") = false -> includes d (js "401") = false ->
      includes d (js "400") = false ->
      title (getErrorMessage json_parse toLowerCase (js "HTTP 500: " ++ d))
        = js "Server Error").
Proof.
  unfold getErrorMessage. simpl.
  split; [reflexivity|].
  split; [intros H1; rewrite H1; reflexivity|].
  split; [intros H1 H2; rewrite H1, H2; reflexivity|].
  intros H1 H2 H3. rewrite H1, H2, H3. reflexivity.
Qed.

End ErrorAlertProofs.

Section QueryProofs.
Import Api QueryString.

Lemma utf8_bytes (cp : Z) : 0 <= cp < 1114112 -> Forall (fun b => 0 <= b < 256) (utf8 cp).
Proof.
  intro H. unfold utf8.
  pose proof (floor_div_bounds cp 64 ltac:(lia)).
  pose proof (floor_div_bounds cp 4096 ltac:(lia)).
  pose proof (floor_div_bounds cp 262144 ltac:(lia)).
  pose proof (Z.mod_pos_bound cp 64 ltac:(lia)).
  pose proof (Z.mod_pos_bound (cp / 64) 64 ltac:(lia)).
  pose proof (Z.mod_pos_bound (cp / 4096) 64 ltac:(lia)).
  destruct (Z.ltb_spec cp 128); [repeat constructor; lia|].
  destruct (Z.ltb_spec cp 2048); [repeat constructor; lia|].
  destruct (Z.ltb_spec cp 65536); repeat constructor; lia.
Qed.

Lemma percent_chars (b : Z) : 0 <= b < 256 ->
  forall c, In c (percent b) -> c = 37 \/ is_unreserved c = true.
Proof.
  intros Hb c Hc.
  pose proof (floor_div_bounds b 16 ltac:(lia)).
  pose proof (Z.mod_pos_bound b 16 ltac:(lia)).
  assert (Hhex : forall n, 0 <= n < 16 -> is_unreserved (hex_digit n) = true).
  { intros n Hn. unfold hex_digit, is_unreserved.
    destruct (Z.ltb_spec n 10).
    - replace ((48 <=? 48 + n) && (48 + n <=? 57)) with true
        by (symmetry; apply andb_true_iff; split; apply Z.leb_le; lia).
      rewrite !orb_true_r. reflexivity.
    - replace ((65 <=? 55 + n) && (55 + n <=? 90)) with true
        by (symmetry; apply andb_true_iff; split; apply Z.leb_le; lia).
      reflexivity. }
  destruct Hc as [<-|[<-|[<-|[]]]]; [left; reflexivity| |]; right; apply Hhex; lia.
Qed.

Lemma flat_map_percent_chars (bs : list Z) : Forall (fun b => 0 <= b < 256) bs ->
  forall c, In c (flat_map percent bs) -> c = 37 \/ is_unreserved c = true.
Proof.
  intros Hbs c Hc. apply in_flat_map in Hc as (b & Hb & Hc).
  rewrite Forall_forall in Hbs. eapply percent_chars; eauto.
Qed.

Lemma encodeURIComponent_chars_n (n : nat) (s e : jsstr) :
  (List.length s <= n)%nat -> code_units_ok s = true -> encodeURIComponent s = Some e ->
  forall c, In c e -> c = 37 \/ is_unreserved c = true.
Proof.
  revert s e. induction n as [|n IH]; intros s e Hlen Hok Henc c Hc.
  { destruct s; [|simpl in Hlen; lia]. injection Henc as <-. destruct Hc. }
  destruct s as [|x r]; [injection Henc as <-; destruct Hc|].
  simpl in Hok. apply andb_prop in Hok as [Hx Hr]. apply andb_prop in Hx as [Hx1 Hx2].
  apply Z.leb_le in Hx1, Hx2. simpl in Hlen.
  simpl in Henc.
  destruct (is_unreserved x) eqn:Eu.
  { destruct (encodeURIComponent r) as [e'|] eqn:Er; [|discriminate].
    injection Henc as <-. destruct Hc as [<-|Hc]; [right; exact Eu|].
    eapply IH; eauto; lia. }
  destruct (is_high_surrogate x) eqn:Eh.
  { destruct r as [|d r']; [discriminate|].
    simpl in Hr. apply andb_prop in Hr as [Hd Hr']. apply andb_prop in Hd as [Hd1 Hd2].
    apply Z.leb_le in Hd1, Hd2.
    destruct (is_low_surrogate d) eqn:El; [|discriminate].
    destruct (encodeURIComponent r') as [e'|] eqn:Er; [|discriminate].
    injection Henc as <-. apply in_app_or in Hc as [Hc|Hc].
    - unfold is_high_surrogate, is_low_surrogate in Eh, El.
      apply andb_prop in Eh as [Eh1 Eh2]. apply andb_prop in El as [El1 El2].
      apply Z.leb_le in Eh1, Eh2, El1, El2.
      eapply flat_map_percent_chars; [|exact Hc]; apply utf8_bytes; lia.
    - simpl in Hlen. eapply IH; eauto; lia. }
  destruct (is_low_surrogate x); [discriminate|].
  destruct (encodeURIComponent r) as [e'|] eqn:Er; [|discriminate].
  injection Henc as <-. apply in_app_or in Hc as [Hc|Hc].
  - eapply flat_map_percent_chars; [|exact Hc]; apply utf8_bytes; lia.
  - eapply IH; eauto; lia.
Qed.

Lemma encodeURIComponent_chars (s e : jsstr) :
  code_units_ok s = true -> encodeURIComponent s = Some e ->
  forall c, In c e -> c = 37 \/ is_unreserved c = true.
Proof. intros. eapply encodeURIComponent_chars_n; eauto. Qed.

Lemma encoded_no_sep (s e : jsstr) (sep : Z) :
  code_units_ok s = true -> encodeURIComponent s = Some e ->
  sep = 38 \/ sep = 61 -> ~ In sep e.
Proof.
  intros Hok Henc Hsep Hin.
  destruct (encodeURIComponent_chars s e Hok Henc sep Hin) as [E|E];
    destruct Hsep as [->| ->]; try discriminate E.
Qed.

Lemma split_on_no_sep (sep : Z) (x : jsstr) : ~ In sep x -> split_on sep x = [x].
Proof.
  induction x as [|c x IH]; intro H; simpl; [reflexivity|].
  destruct (Z.eqb_spec c sep) as [E|E]; [exfalso; apply H; left; auto|].
  rewrite IH; [reflexivity|]. intro Hi. apply H. right. exact Hi.
Qed.

Lemma split_on_app (sep : Z) (x y : jsstr) :
  ~ In sep x -> split_on sep (x ++ sep :: y) = x :: split_on sep y.
Proof.
  induction x as [|c x IH]; intro H; simpl.
  - rewrite Z.eqb_refl. reflexivity.
  - destruct (Z.eqb_spec c sep) as [E|E]; [exfalso; apply H; left; auto|].
    rewrite IH; [reflexivity|]. intro Hi. apply H. right. exact Hi.
Qed.

Lemma split_on_join (sep : Z) (l : list jsstr) :
  l <> [] -> Forall (fun x => ~ In sep x) l -> split_on sep (join_with sep l) = l.
Proof.
  induction l as [|x l IH]; intros Hne Hall; [congruence|].
  inversion Hall as [|? ? Hx Hl]; subst.
  destruct l as [|y l].
  - simpl. apply split_on_no_sep. exact Hx.
  - change (join_with sep (x :: y :: l)) with (x ++ sep :: join_with sep (y :: l)).
    rewrite split_on_app by exact Hx. rewrite IH; [reflexivity|discriminate|exact Hl].
Qed.

(** X15: [get] appends a query only when a parameter is neither undefined
    nor null, and each [&]-separated field of it splits at [=] into the
    encoded key and the encoded value of a kept parameter, in order. *)
Lemma get_url_query (endpoint : jsstr) (params : list (jsstr * jsval)) (url : jsstr)
  (Hok : Forall (fun kv => code_units_ok (fst kv) = true
                           /\ code_units_ok (to_string (snd kv)) = true) params)
  (Hget : get_url endpoint params = Some url) :
  (kept_params params = [] /\ url = endpoint)
  \/ (kept_params params <> []
      /\ exists query, url = endpoint ++ [63] ++ query
         /\ Forall2 (fun kv field =>
                       exists k v, encodeURIComponent (fst kv) = Some k
                         /\ encodeURIComponent (to_string (snd kv)) = Some v
                         /\ split_on 61 field = [k; v])
              (kept_params params) (split_on 38 query)).
Proof.
  unfold get_url in Hget.
  assert (Hkept : Forall (fun kv => code_units_ok (fst kv) = true
                           /\ code_units_ok (to_string (snd kv)) = true) (kept_params params)).
  { unfold kept_params. rewrite Forall_forall in Hok |- *. intros kv Hkv.
    apply filter_In in Hkv as [Hkv _]. auto. }
  revert Hget Hkept. generalize (kept_params params) as kept. intros kept Hget Hkept.
  destruct (map_opt query_field kept) as [fields|] eqn:Em; [|discriminate].
  (* each field is an encoded key, '=', an encoded value *)
  assert (Hf : Forall2 (fun kv field =>
                 exists k v, encodeURIComponent (fst kv) = Some k
                   /\ encodeURIComponent (to_string (snd kv)) = Some v
                   /\ field = k ++ [61] ++ v
                   /\ ~ In 38 k /\ ~ In 61 k /\ ~ In 38 v /\ ~ In 61 v) kept fields).
  { clear Hget. revert fields Em. induction kept as [|kv kept IH]; intros fields Em.
    - injection Em as <-. constructor.
    - inversion Hkept as [|? ? [Hk Hv] Hrest]; subst.
      change (map_opt query_field (kv :: kept)) with
        (match query_field kv with
         | None => None
         | Some y => option_map (cons y) (map_opt query_field kept)
         end) in Em.
      destruct (query_field kv) as [y|] eqn:Eq; [|discriminate].
      unfold query_field in Eq.
      destruct (encodeURIComponent (fst kv)) as [k|] eqn:Ek; [|discriminate].
      destruct (encodeURIComponent (to_string (snd kv))) as [v|] eqn:Ev; [|discriminate].
      injection Eq as <-.
      destruct (map_opt query_field kept) as [fs|] eqn:Efs; [|discriminate].
      simpl in Em. injection Em as <-. constructor.
      + exists k, v. split; [exact Ek|split; [exact Ev|split; [reflexivity|]]].
        repeat split; (eapply encoded_no_sep; [| eassumption |]); auto.
      + apply IH; auto. }
  destruct kept as [|kv kept].
  - left. split; [reflexivity|]. inversion Hf; subst. simpl in Hget. injection Hget as <-. reflexivity.
  - right. split; [discriminate|].
    inversion Hf as [|? field ? fields' Hfield Hrest]; subst.
    destruct Hfield as (k & v & _ & _ & -> & _).
    assert (Hq : truthy_str (join_with 38 ((k ++ [61] ++ v) :: fields')) = true).
    { destruct fields'; simpl; destruct k; reflexivity. }
    rewrite Hq in Hget. injection Hget as Hu.
    exists (join_with 38 ((k ++ [61] ++ v) :: fields')). split; [symmetry; exact Hu|].
    rewrite split_on_join.
    + eapply Forall2_impl; [|exact Hf].
      intros kv' field (k' & v' & Ek & Ev & -> & Hk1 & Hk2 & Hv1 & Hv2).
      exists k', v'. split; [exact Ek|split; [exact Ev|]].
      change ([61] ++ v') with (61 :: v'). rewrite split_on_app by exact Hk2. rewrite split_on_no_sep by exact Hv2. reflexivity.
    + discriminate.
    + clear Hq. revert Hf. generalize (kv :: kept) as l. generalize ((k ++ [61] ++ v) :: fields') as fs.
      intros fs l Hf. induction Hf as [|a b l' fs' (k' & v' & _ & _ & -> & Hk1 & _ & Hv1 & _) _ IH];
        constructor; [|exact IH].
      intro Hin. apply in_app_or in Hin as [Hin|Hin]; [contradiction|].
      destruct Hin as [E|Hin]; [discriminate|contradiction].
Qed.

End QueryProofs.

Section QueryProofs2.
Import Api QueryString.

Lemma octet_percent (b : Z) : 0 <= b < 256 ->
  octet (hex_digit (b / 16)) (hex_digit (b mod 16)) = b.
Proof.
  intro Hb.
  assert (Hhex : forall n, 0 <= n < 16 -> hex_value (hex_digit n) = n).
  { intros n Hn. unfold hex_digit, hex_value.
    destruct (Z.ltb_spec n 10).
    - destruct (Z.leb_spec (48 + n) 57); lia.
    - destruct (Z.leb_spec (55 + n) 57); lia. }
  pose proof (floor_div_bounds b 16 ltac:(lia)).
  pose proof (Z.mod_pos_bound b 16 ltac:(lia)).
  pose proof (Z.div_mod b 16 ltac:(lia)).
  unfold octet. rewrite !Hhex by lia. lia.
Qed.

Lemma percent_decode_chunk (cp : Z) (t : jsstr) : 0 <= cp < 1114112 ->
  percent_decode (flat_map percent (utf8 cp) ++ t)
  = option_map (app (utf16_units cp)) (percent_decode t).
Proof.
  intro H.
  pose proof (floor_div_bounds cp 64 ltac:(lia)).
  pose proof (floor_div_bounds cp 4096 ltac:(lia)).
  pose proof (floor_div_bounds cp 262144 ltac:(lia)).
  pose proof (Z.mod_pos_bound cp 64 ltac:(lia)).
  pose proof (Z.mod_pos_bound (cp / 64) 64 ltac:(lia)).
  pose proof (Z.mod_pos_bound (cp / 4096) 64 ltac:(lia)).
  pose proof (Z.div_mod cp 64 ltac:(lia)).
  pose proof (Z.div_mod (cp / 64) 64 ltac:(lia)).
  pose proof (Z.div_mod (cp / 4096) 64 ltac:(lia)).
  assert (E1 : cp / 64 / 64 = cp / 4096) by (rewrite Z.div_div by lia; reflexivity).
  assert (E2 : cp / 4096 / 64 = cp / 262144) by (rewrite Z.div_div by lia; reflexivity).
  rewrite E1 in *. rewrite E2 in *.
  unfold utf8.
  destruct (Z.ltb_spec cp 128).
  - cbn [flat_map app percent percent_decode Z.eqb Pos.eqb].
    rewrite octet_percent by lia.
    destruct (Z.ltb_spec cp 128); [|lia]. reflexivity.
  - destruct (Z.ltb_spec cp 2048).
    + cbn [flat_map app percent percent_decode Z.eqb Pos.eqb].
      rewrite !octet_percent by lia.
      destruct (Z.ltb_spec (192 + cp / 64) 128); [lia|].
      destruct (Z.ltb_spec (192 + cp / 64) 224); [|lia].
      do 3 f_equal; lia.
    + destruct (Z.ltb_spec cp 65536).
      * cbn [flat_map app percent percent_decode Z.eqb Pos.eqb].
        rewrite !octet_percent by lia.
        destruct (Z.ltb_spec (224 + cp / 4096) 128); [lia|].
        destruct (Z.ltb_spec (224 + cp / 4096) 224); [lia|].
        destruct (Z.ltb_spec (224 + cp / 4096) 240); [|lia].
        do 3 f_equal; lia.
      * cbn [flat_map app percent percent_decode Z.eqb Pos.eqb].
        rewrite !octet_percent by lia.
        destruct (Z.ltb_spec (240 + cp / 262144) 128); [lia|].
        destruct (Z.ltb_spec (240 + cp / 262144) 224); [lia|].
        destruct (Z.ltb_spec (240 + cp / 262144) 240); [lia|].
        do 3 f_equal; lia.
Qed.

Lemma percent_decode_encode_n (n : nat) (s e : jsstr) :
  (List.length s <= n)%nat -> code_units_ok s = true -> encodeURIComponent s = Some e ->
  percent_decode e = Some s.
Proof.
  revert s e. induction n as [|n IH]; intros s e Hlen Hok Henc.
  { destruct s; [|simpl in Hlen; lia]. injection Henc as <-. reflexivity. }
  destruct s as [|x r]; [injection Henc as <-; reflexivity|].
  simpl in Hok. apply andb_prop in Hok as [Hx Hr]. apply andb_prop in Hx as [Hx1 Hx2].
  apply Z.leb_le in Hx1, Hx2. simpl in Hlen.
  simpl in Henc.
  destruct (is_unreserved x) eqn:Eu.
  { destruct (encodeURIComponent r) as [e'|] eqn:Er; [|discriminate].
    injection Henc as <-. simpl.
    destruct (Z.eqb_spec x 37) as [->|_]; [discriminate|].
    rewrite (IH r e') by (auto; lia). reflexivity. }
  destruct (is_high_surrogate x) eqn:Eh.
  { destruct r as [|d r']; [discriminate|].
    simpl in Hr. apply andb_prop in Hr as [Hd Hr']. apply andb_prop in Hd as [Hd1 Hd2].
    apply Z.leb_le in Hd1, Hd2.
    destruct (is_low_surrogate d) eqn:El; [|discriminate].
    destruct (encodeURIComponent r') as [e'|] eqn:Er; [|discriminate].
    injection Henc as <-.
    unfold is_high_surrogate, is_low_surrogate in Eh, El.
    apply andb_prop in Eh as [Eh1 Eh2]. apply andb_prop in El as [El1 El2].
    apply Z.leb_le in Eh1, Eh2, El1, El2.
    rewrite percent_decode_chunk by lia.
    simpl in Hlen. rewrite (IH r' e') by (auto; lia). simpl.
    unfold utf16_units.
    set (cp := (x - 55296) * 1024 + (d - 56320) + 65536).
    destruct (Z.ltb_spec cp 65536); [unfold cp in *; lia|].
    assert (Eq : (cp - 65536) / 1024 = x - 55296).
    { symmetry. apply Z.div_unique_pos with (d - 56320); unfold cp; lia. }
    assert (Er' : (cp - 65536) mod 1024 = d - 56320).
    { symmetry. apply Z.mod_unique_pos with (x - 55296); unfold cp; lia. }
    rewrite Eq, Er'. cbn [app]. replace (55296 + (x - 55296)) with x by lia.
    replace (56320 + (d - 56320)) with d by lia. reflexivity. }
  destruct (is_low_surrogate x) eqn:El; [discriminate|].
  destruct (encodeURIComponent r) as [e'|] eqn:Er; [|discriminate].
  injection Henc as <-.
  rewrite percent_decode_chunk by lia. rewrite (IH r e') by (auto; lia). simpl.
  unfold utf16_units. destruct (Z.ltb_spec x 65536); [reflexivity|lia].
Qed.

(** X16: [encodeURIComponent] is injective on strings of code units. *)
Lemma encodeURIComponent_injective (s1 s2 e : jsstr)
  (Hok1 : code_units_ok s1 = true) (Hok2 : code_units_ok s2 = true)
  (H1 : encodeURIComponent s1 = Some e) (H2 : encodeURIComponent s2 = Some e) :
  s1 = s2.
Proof.
  pose proof (percent_decode_encode_n _ s1 e (le_n _) Hok1 H1) as D1.
  pose proof (percent_decode_encode_n _ s2 e (le_n _) Hok2 H2) as D2.
  congruence.
Qed.

End QueryProofs2.

Section ErrorMessageProofs.
Import Helpers.

(** X17: [getErrorMessage] throws exactly on [null] and [undefined],
    returns a string error as it is, and otherwise returns a truthy value. *)
Lemma getErrorMessage_result (error : Api.jsval) :
  (getErrorMessage error = None <-> error = Api.JUndef \/ error = Api.JNull)
  /\ (forall s, error = Api.JStr s -> getErrorMessage error = Some error)
  /\ (forall v, (forall s, error <> Api.JStr s) ->
        getErrorMessage error = Some v -> Api.truthy v = true).
Proof.
  split; [|split].
  - destruct error; simpl; split; intro H;
      try (destruct H as [H|H]; discriminate H); try tauto;
      repeat destruct (Api.truthy _); discriminate H.
  - intros s ->. reflexivity.
  - intros v Hs. destruct error; try (exfalso; eapply Hs; reflexivity);
      try (intro H; discriminate H).
    all: unfold getErrorMessage;
      set (m := Api.opt_get _ (js "message")); set (d := Api.opt_get _ (js "detail")).
    all: destruct (Api.truthy m) eqn:E1; [intro H; injection H as <-; exact E1|].
    all: destruct (Api.truthy d) eqn:E2; [intro H; injection H as <-; exact E2|].
    all: intro H; injection H as <-; reflexivity.
Qed.

End ErrorMessageProofs.

(** ** Witnesses of the extra properties' hypotheses *)

Lemma truncateText_bounds_witness :
  Z.of_nat (List.length (Helpers.truncateText (js "hello world") 5)) <= 5 + 3.
Proof.
  destruct (truncateText_bounds (js "hello world") 5 ltac:(lia)) as (_ & _ & H).
  exact H.
Defined.

Lemma add_then_remove_witness :
  fst (AnalysisContext.removeAnalysis
         (AnalysisContext.analysis_id (AnalysisContext.new_entry sample_clock (js "hello") sample_result))
         (inl tt)
         (AnalysisProvider.apply_op sample_ctx
            (AnalysisProvider.OpAdd (sample_clock, js "hello", sample_result))))
  = {| AnalysisContext.analysisHistory := firstn 99 (AnalysisContext.analysisHistory sample_ctx);
       AnalysisContext.error := AnalysisContext.error sample_ctx |}.
Proof.
  apply add_then_remove. vm_compute. intros [H | []]. discriminate H.
Defined.

Lemma mobile_request_ok_not_json_witness :
  Api.mobile_request sample_text_response = Api.ReturnedRaw
  \/ Api.mobile_request sample_text_response =
       Api.Returned (Api.JObj [(js "message", Api.JStr (js "pong"))]).
Proof.
  apply (mobile_request_ok_not_json sample_text_response); vm_compute; reflexivity.
Defined.

Lemma analyze_request_sent_witness :
  js "hi" = trim (js "  hi ") /\ trim (js "hi") = js "hi" /\ js "hi" <> []
  /\ (List.length (js "hi") <= 5000)%nat.
Proof.
  apply analyze_request_sent. vm_compute. reflexivity.
Defined.

Lemma get_url_query_witness :
  exists url,
    QueryString.get_url (js "/history") [(js "limit", Api.JNum 50); (js "q", Api.JUndef)] = Some url
    /\ ((QueryString.kept_params [(js "limit", Api.JNum 50); (js "q", Api.JUndef)] = [] /\ url = js "/history")
        \/ (QueryString.kept_params [(js "limit", Api.JNum 50); (js "q", Api.JUndef)] <> []
            /\ exists query, url = js "/history" ++ [63] ++ query
               /\ Forall2 (fun kv field =>
                             exists k v, QueryString.encodeURIComponent (fst kv) = Some k
                                         /\ QueryString.encodeURIComponent (Api.to_string (snd kv)) = Some v
                                         /\ QueryString.split_on 61 field = [k; v])
                          (QueryString.kept_params [(js "limit", Api.JNum 50); (js "q", Api.JUndef)])
                          (QueryString.split_on 38 query))).
Proof.
  eexists. split; [vm_compute; reflexivity|].
  apply get_url_query.
  - repeat constructor.
  - vm_compute. reflexivity.
Defined.

Lemma encodeURIComponent_injective_witness :
  js "a b" = js "a b".
Proof.
  apply (encodeURIComponent_injective (js "a b") (js "a b") (js "a%20b")); vm_compute; reflexivity.
Defined.
